(** * ExpenseTracker: the expense list screen of [src/app/index.js]

    A shallow embedding of the React Native component [ExpenseTracker]
    (the TypeScript variant of the same file declares the [Expense]
    interface and is otherwise the same code), and the properties of its
    handlers and projections.

    - [JS]: the fragment of the ECMAScript built-ins the component calls:
      strings as sequences of UTF-16 code units, [String.prototype.trim],
      binary64 numbers, [parseFloat], [isNaN], [JSON.stringify] of the
      object the component sends, property lookup through
      [Object.prototype].
    - the component: its state, the effects of its handlers as programs
      of a small monad ([fetch], [Alert.alert], [new Date], state setters,
      exceptions), and an interpreter that threads the state and records
      what the outside world sees. *)

From Stdlib Require Import ZArith NArith Ascii String.
From Stdlib Require Import Floats.SpecFloat.
From stdpp Require Import base decidable option list gmap.

Local Open Scope N_scope.

(** ** ECMAScript values and built-ins *)

Module JS.

(** A string value is a finite sequence of 16-bit code units. *)
Abbreviation jsstring := (list N).

(** Source text is UTF-8; [js "..."] is the string value a literal of the
    source denotes: each code point of the literal, as one code unit or as
    a surrogate pair. *)
Definition code_units (cp : N) : jsstring :=
  if cp <? 0x10000 then [cp]
  else [0xD800 + (cp - 0x10000) / 0x400; 0xDC00 + (cp - 0x10000) mod 0x400].

(** [pending] continuation bytes are still expected for the code point
    whose high bits are [acc]. *)
Fixpoint utf8_decode (bytes : list N) (pending : nat) (acc : N) : jsstring :=
  match bytes with
  | [] => []
  | b :: rest =>
      match pending with
      | O =>
          if b <? 0x80 then code_units b ++ utf8_decode rest 0 0
          else if b <? 0xE0 then utf8_decode rest 1 (b mod 0x20)
          else if b <? 0xF0 then utf8_decode rest 2 (b mod 0x10)
          else utf8_decode rest 3 (b mod 0x08)
      | S O => code_units (acc * 0x40 + b mod 0x40) ++ utf8_decode rest 0 0
      | S p => utf8_decode rest p (acc * 0x40 + b mod 0x40)
      end
  end.

Definition js (literal : string) : jsstring :=
  utf8_decode (map N_of_ascii (list_ascii_of_string literal)) 0 0.
Arguments js : simpl never.

(** WhiteSpace and LineTerminator code points (all in the basic plane). *)
Definition is_white_space (c : N) : bool :=
  (c =? 0x09) || (c =? 0x0B) || (c =? 0x0C) || (c =? 0x20) || (c =? 0xA0)
  || (c =? 0x1680) || ((0x2000 <=? c) && (c <=? 0x200A))
  || (c =? 0x202F) || (c =? 0x205F) || (c =? 0x3000) || (c =? 0xFEFF).

Definition is_line_terminator (c : N) : bool :=
  (c =? 0x0A) || (c =? 0x0D) || (c =? 0x2028) || (c =? 0x2029).

Definition is_trimmable (c : N) : bool :=
  is_white_space c || is_line_terminator c.

Fixpoint trimStart (s : jsstring) : jsstring :=
  match s with
  | c :: rest => if is_trimmable c then trimStart rest else s
  | [] => []
  end.

Definition trimEnd (s : jsstring) : jsstring := rev (trimStart (rev s)).

(** [String.prototype.trim] *)
Definition trim (s : jsstring) : jsstring := trimEnd (trimStart s).

(** ToBoolean of a string: the empty string is the only falsy one. *)
Definition string_truthy (s : jsstring) : bool :=
  match s with [] => false | _ => true end.

(** *** Numbers: IEEE 754 binary64 *)

Abbreviation number := spec_float.

Definition prec : Z := 53.
Definition emax : Z := 1024.

Definition zero : number := S754_zero false.
Definition NaN : number := S754_nan.
Definition Infinity : number := S754_infinity false.

(** The [+] of two numbers. *)
Definition add (x y : number) : number := SFadd prec emax x y.

(** The number nearest to the integer [m] scaled by [2^e]. *)
Definition of_Z (m e : Z) : number := binary_normalize prec emax m e false.

Definition isNaN (x : number) : bool :=
  match x with S754_nan => true | _ => false end.

Definition isFinite (x : number) : bool :=
  match x with S754_zero _ | S754_finite _ _ _ => true | _ => false end.

(** [===] on numbers: NaN differs from everything, the two zeros are equal. *)
Definition number_strict_equal (x y : number) : bool := SFeqb x y.

(** *** parseFloat

    The longest prefix of the input, after leading white space, that is a
    StrDecimalLiteral: an optional sign, then [Infinity] or decimal digits
    with an optional fraction and an optional exponent part. *)

Definition is_digit (c : N) : bool := (0x30 <=? c) && (c <=? 0x39).

(** The leading decimal digits (as digit values) and what follows them. *)
Fixpoint take_digits (s : jsstring) : list N * jsstring :=
  match s with
  | c :: rest =>
      if is_digit c
      then let (ds, tail) := take_digits rest in ((c - 0x30) :: ds, tail)
      else ([], s)
  | [] => ([], [])
  end.

Definition digits_value (ds : list N) : N :=
  foldl (fun acc d => acc * 10 + d) 0 ds.

Fixpoint starts_with (p s : jsstring) : bool :=
  match p, s with
  | [], _ => true
  | a :: p', b :: s' => (a =? b) && starts_with p' s'
  | _ :: _, [] => false
  end.

(** SignedInteger after an exponent indicator; [None] when no digit
    follows, in which case the indicator is not part of the literal. *)
Definition signed_integer (s : jsstring) : option Z :=
  let (negative, unsigned) :=
    match s with
    | c :: rest =>
        if c =? 0x2D then (true, rest)
        else if c =? 0x2B then (false, rest)
        else (false, s)
    | [] => (false, [])
    end in
  match fst (take_digits unsigned) with
  | [] => None
  | ds => Some (if negative then (- Z.of_N (digits_value ds))%Z
                else Z.of_N (digits_value ds))
  end.

(** The decimal exponent an optional ExponentPart contributes. *)
Definition exponent_part (s : jsstring) : Z :=
  match s with
  | c :: rest =>
      if (c =? 0x65) || (c =? 0x45)
      then match signed_integer rest with Some e => e | None => 0%Z end
      else 0%Z
  | [] => 0%Z
  end.

Variant literal :=
  | LitInfinity
  | LitDecimal (digits : N) (exponent : Z).   (* digits * 10^exponent *)

Definition unsigned_literal (s : jsstring) : option literal :=
  if starts_with (js "Infinity") s then Some LitInfinity
  else
    let (int, after_int) := take_digits s in
    match after_int with
    | 0x2E :: after_dot =>
        let (frac, after_frac) := take_digits after_dot in
        match int, frac with
        | [], [] => None
        | _, _ =>
            Some (LitDecimal (digits_value (int ++ frac))
                    (exponent_part after_frac - Z.of_nat (length frac)))
        end
    | _ =>
        match int with
        | [] => None
        | _ => Some (LitDecimal (digits_value int) (exponent_part after_int))
        end
    end.

(** The number nearest to [digits * 10^exponent] (ties to even), with the
    sign kept on a zero result. *)
Definition decimal_value (negative : bool) (digits : N) (exponent : Z) : number :=
  match digits with
  | N0 => S754_zero negative
  | Npos p =>
      match exponent with
      | Zneg k =>
          SFdiv prec emax (S754_finite negative p 0)
                          (S754_finite false (10 ^ k)%positive 0)
      | Z0 => binary_round prec emax negative p 0
      | Zpos k => binary_round prec emax negative (p * 10 ^ k)%positive 0
      end
  end.

Definition parseFloat (input : jsstring) : number :=
  let trimmed := trimStart input in
  let (negative, unsigned) :=
    match trimmed with
    | c :: rest =>
        if c =? 0x2D then (true, rest)
        else if c =? 0x2B then (false, rest)
        else (false, trimmed)
    | [] => (false, [])
    end in
  match unsigned_literal unsigned with
  | None => NaN
  | Some LitInfinity => S754_infinity negative
  | Some (LitDecimal digits exponent) => decimal_value negative digits exponent
  end.

(** *** JSON.stringify

    The text is modelled by the JSON value it denotes. A finite number is
    written with the digits that read back as itself, both zeros as [0];
    a number that is not finite is written [null]. *)

#[warnings="-register-all"] Inductive JsonValue :=
  | JNull
  | JNumber (x : number)
  | JString (s : jsstring)
  | JObject (members : list (jsstring * JsonValue)).

Definition stringify_number (x : number) : JsonValue :=
  match x with
  | S754_zero _ => JNumber zero
  | S754_finite _ _ _ => JNumber x
  | S754_infinity _ | S754_nan => JNull
  end.

(** *** Objects

    What a property read can yield here: a string, a built-in function or
    object of the realm (known by name), or undefined. *)

Variant Value :=
  | VUndefined
  | VString (s : jsstring)
  | VFunction (name : jsstring)
  | VObject (name : jsstring).

(** ToBoolean *)
Definition truthy (v : Value) : bool :=
  match v with
  | VUndefined => false
  | VString s => string_truthy s
  | VFunction _ | VObject _ => true
  end.

(** [a || b] *)
Definition logical_or (a b : Value) : Value := if truthy a then a else b.

(** The properties every object created by an object literal inherits
    from [Object.prototype]; the [__proto__] accessor yields the
    prototype of the object it is read from, [Object.prototype] itself for
    an object literal. *)
Definition Object_prototype : gmap jsstring Value :=
  list_to_map
    [ (js "constructor", VFunction (js "Object"));
      (js "hasOwnProperty", VFunction (js "hasOwnProperty"));
      (js "isPrototypeOf", VFunction (js "isPrototypeOf"));
      (js "propertyIsEnumerable", VFunction (js "propertyIsEnumerable"));
      (js "toLocaleString", VFunction (js "toLocaleString"));
      (js "toString", VFunction (js "toString"));
      (js "valueOf", VFunction (js "valueOf"));
      (js "__proto__", VObject (js "Object.prototype"));
      (js "__defineGetter__", VFunction (js "__defineGetter__"));
      (js "__defineSetter__", VFunction (js "__defineSetter__"));
      (js "__lookupGetter__", VFunction (js "__lookupGetter__"));
      (js "__lookupSetter__", VFunction (js "__lookupSetter__")) ].

(** [o[key]] for an object literal with own properties [own]: the own
    property, else the inherited one, else undefined. *)
Definition get (own : gmap jsstring Value) (key : jsstring) : Value :=
  match own !! key with
  | Some v => v
  | None => default VUndefined (Object_prototype !! key)
  end.

End JS.
Import JS.

(** ** The data model *)

(** [id: number | string] *)
Variant ExpenseId :=
  | IdNumber (n : number)
  | IdString (s : jsstring).

(** [a === b] on identifiers: values of different types are never equal. *)
Definition strict_equal (a b : ExpenseId) : bool :=
  match a, b with
  | IdNumber x, IdNumber y => number_strict_equal x y
  | IdString s, IdString t => bool_decide (s = t)
  | _, _ => false
  end.

(** [a !== b] *)
Definition strict_not_equal (a b : ExpenseId) : bool := negb (strict_equal a b).

(** [interface Expense] *)
Module Expense.
Record t := mk {
  id : ExpenseId;
  amount : number;
  description : jsstring;
  category : jsstring;
  date : jsstring
}.
End Expense.

(** The object literal [newExpense] of [addExpense]: an expense that has
    no id yet. *)
Module NewExpense.
Record t := mk {
  amount : number;
  description : jsstring;
  category : jsstring;
  date : jsstring
}.
End NewExpense.

(** [JSON.stringify(newExpense)] *)
Definition JSON_stringify (newExpense : NewExpense.t) : JsonValue :=
  JObject
    [ (js "amount", stringify_number (NewExpense.amount newExpense));
      (js "description", JString (NewExpense.description newExpense));
      (js "category", JString (NewExpense.category newExpense));
      (js "date", JString (NewExpense.date newExpense)) ].

Definition API_BASE_URL : jsstring := js "https://expense-tracker-h030.onrender.com".

Definition categories : list jsstring :=
  [ js "Food"; js "Transportation"; js "Entertainment"; js "Shopping";
    js "Bills"; js "Health"; js "Other" ].

(** ** The state of the component: one field per [useState] *)

Record State := mkState {
  expenses : list Expense.t;
  amount : jsstring;
  description : jsstring;
  category : jsstring;
  showAddModal : bool;
  selectedFilter : jsstring;
  loading : bool
}.

Definition initial : State :=
  {| expenses := []; amount := []; description := []; category := js "Food";
     showAddModal := false; selectedFilter := js "All"; loading := false |}.

(** The state setters. [setExpenses] is given an updater, as in
    [setExpenses(prev => ...)]; [setExpenses(data)] is the constant one. *)
Definition setExpenses (f : list Expense.t -> list Expense.t) (st : State) : State :=
  mkState (f (expenses st)) (amount st) (description st) (category st)
          (showAddModal st) (selectedFilter st) (loading st).

Definition setAmount (v : jsstring) (st : State) : State :=
  mkState (expenses st) v (description st) (category st)
          (showAddModal st) (selectedFilter st) (loading st).

Definition setDescription (v : jsstring) (st : State) : State :=
  mkState (expenses st) (amount st) v (category st)
          (showAddModal st) (selectedFilter st) (loading st).

Definition setCategory (v : jsstring) (st : State) : State :=
  mkState (expenses st) (amount st) (description st) v
          (showAddModal st) (selectedFilter st) (loading st).

Definition setShowAddModal (v : bool) (st : State) : State :=
  mkState (expenses st) (amount st) (description st) (category st)
          v (selectedFilter st) (loading st).

Definition setSelectedFilter (v : jsstring) (st : State) : State :=
  mkState (expenses st) (amount st) (description st) (category st)
          (showAddModal st) v (loading st).

Definition setLoading (v : bool) (st : State) : State :=
  mkState (expenses st) (amount st) (description st) (category st)
          (showAddModal st) (selectedFilter st) v.

(** ** The remote collection *)

Variant Request :=
  | GET_expenses                      (* fetch(`${API_BASE_URL}/expenses`) *)
  | POST_expenses (body : JsonValue)  (* the same URL, method POST, JSON content type *)
  | DELETE_expense (id : ExpenseId).  (* fetch(`${API_BASE_URL}/expenses/${id}`), method DELETE *)

(** What [response.json()] gives: the parsed value, or a rejection when
    the body is not JSON. *)
Variant Body (T : Type) :=
  | Json (value : T)
  | NotJson (message : jsstring).
Arguments Json {T} value.
Arguments NotJson {T} message.

Record Response (T : Type) := mkResponse {
  status : N;
  body : Body T
}.
Arguments mkResponse {T} status body.
Arguments status {T} r.
Arguments body {T} r.

(** [response.ok]: the status is in the range 200-299. *)
Definition ok {T} (response : Response T) : bool :=
  (200 <=? status response) && (status response <=? 299).

(** A [fetch] promise settles: fulfilled with a response whatever its
    status, rejected when the request could not be made. *)
Variant Settled (T : Type) :=
  | Fulfilled (response : Response T)
  | Rejected (message : jsstring).
Arguments Fulfilled {T} response.
Arguments Rejected {T} message.

(** The type the component reads each response body at. *)
Definition Reply (r : Request) : Type :=
  match r with
  | GET_expenses => list Expense.t
  | POST_expenses _ => Expense.t
  | DELETE_expense _ => unit
  end.

(** ** Handlers as programs *)

(** What a handler does, in order: state updates, requests, alerts, reads
    of the clock; it ends normally or by a thrown error, known by its
    message. An alert answers with the index of the button pressed, if
    one of its own buttons was. *)
Inductive Prog (A : Type) : Type :=
  | Return (a : A)
  | Throw (message : jsstring)
  | Update (f : State -> State) (k : Prog A)
  | Await (r : Request) (k : Settled (Reply r) -> Prog A)
  | AlertAlert (title message : jsstring) (buttons : list jsstring)
               (k : option nat -> Prog A)
  | NewDate (k : jsstring -> Prog A).
Arguments Return {A} a.
Arguments Throw {A} message.
Arguments Update {A} f k.
Arguments Await {A} r k.
Arguments AlertAlert {A} title message buttons k.
Arguments NewDate {A} k.

Fixpoint bind {A B} (p : Prog A) (f : A -> Prog B) : Prog B :=
  match p with
  | Return a => f a
  | Throw m => Throw m
  | Update u k => Update u (bind k f)
  | Await r k => Await r (fun x => bind (k x) f)
  | AlertAlert t m bs k => AlertAlert t m bs (fun x => bind (k x) f)
  | NewDate k => NewDate (fun x => bind (k x) f)
  end.

#[export] Instance Prog_ret : MRet Prog := @Return.
#[export] Instance Prog_bind : MBind Prog := fun A B f p => bind p f.

(** [try { p } catch (error) { handler error.message }] *)
Fixpoint try_catch {A} (p : Prog A) (handler : jsstring -> Prog A) : Prog A :=
  match p with
  | Return a => Return a
  | Throw m => handler m
  | Update u k => Update u (try_catch k handler)
  | Await r k => Await r (fun x => try_catch (k x) handler)
  | AlertAlert t m bs k => AlertAlert t m bs (fun x => try_catch (k x) handler)
  | NewDate k => NewDate (fun x => try_catch (k x) handler)
  end.

(** [try { p } finally { cleanup }] *)
Fixpoint try_finally {A} (p : Prog A) (cleanup : Prog unit) : Prog A :=
  match p with
  | Return a => bind cleanup (fun _ => Return a)
  | Throw m => bind cleanup (fun _ => Throw m)
  | Update u k => Update u (try_finally k cleanup)
  | Await r k => Await r (fun x => try_finally (k x) cleanup)
  | AlertAlert t m bs k => AlertAlert t m bs (fun x => try_finally (k x) cleanup)
  | NewDate k => NewDate (fun x => try_finally (k x) cleanup)
  end.

Definition set (f : State -> State) : Prog unit := Update f (Return tt).

(** [await fetch(...)]: a rejection is thrown. *)
Definition fetch (r : Request) : Prog (Response (Reply r)) :=
  Await r (fun settled =>
    match settled with
    | Fulfilled response => Return response
    | Rejected message => Throw message
    end).

(** [await response.json()] *)
Definition json {T} (response : Response T) : Prog T :=
  match body response with
  | Json value => Return value
  | NotJson message => Throw message
  end.

(** [Alert.alert(title, message)] *)
Definition alert (title message : jsstring) : Prog unit :=
  AlertAlert title message [] (fun _ => Return tt).

(** [new Date().toISOString()] *)
Definition now : Prog jsstring := NewDate Return.

(** ** Running a handler *)

(** The world outside the component: how the service settles each
    request, what the clock reads, which button the user presses. *)
Record World := mkWorld {
  server : forall r : Request, Settled (Reply r);
  clock : jsstring;
  press : option nat
}.

Variant Event :=
  | Requested (r : Request)
  | Alerted (title message : jsstring) (buttons : list jsstring).

Variant Completion (A : Type) :=
  | Normal (a : A)
  | Thrown (message : jsstring).
Arguments Normal {A} a.
Arguments Thrown {A} message.

Record Outcome (A : Type) := mkOutcome {
  completion : Completion A;
  final : State;
  events : list Event
}.
Arguments mkOutcome {A} completion final events.
Arguments completion {A} o.
Arguments final {A} o.
Arguments events {A} o.

Definition after {A} (e : Event) (o : Outcome A) : Outcome A :=
  mkOutcome (completion o) (final o) (e :: events o).

Fixpoint run {A} (p : Prog A) (w : World) (st : State) : Outcome A :=
  match p with
  | Return a => mkOutcome (Normal a) st []
  | Throw m => mkOutcome (Thrown m) st []
  | Update u k => run k w (u st)
  | Await r k => after (Requested r) (run (k (server w r)) w st)
  | AlertAlert t m bs k => after (Alerted t m bs) (run (k (press w)) w st)
  | NewDate k => run (k (clock w)) w st
  end.

Definition is_request (e : Event) : bool :=
  match e with Requested _ => true | Alerted _ _ _ => false end.

(** ** The handlers

    A handler is a closure of one render: [self] is the state of that
    render, which the handler reads; its updates apply to the state that is
    current when they run. *)

Definition fetchExpenses : Prog unit :=
  set (setLoading true);;
  try_finally
    (try_catch
       (response ← fetch GET_expenses;
        if negb (ok response) then Throw (js "Failed to fetch expenses")
        else
          data ← json response;
          set (setExpenses (fun _ => data)))
       (fun error => alert (js "Error") error))
    (set (setLoading false)).

Definition addExpense (self : State) : Prog unit :=
  if negb (string_truthy (amount self)) || negb (string_truthy (description self))
  then alert (js "Error") (js "Please fill in all fields")
  else if isNaN (parseFloat (amount self))
  then alert (js "Error") (js "Please enter a valid amount")
  else
    timestamp ← now;
    let newExpense :=
      {| NewExpense.amount := parseFloat (amount self);
         NewExpense.description := trim (description self);
         NewExpense.category := category self;
         NewExpense.date := timestamp |} in
    set (setLoading true);;
    try_finally
      (try_catch
         (response ← fetch (POST_expenses (JSON_stringify newExpense));
          if negb (ok response) then Throw (js "Failed to add expense")
          else
            savedExpense ← json response;
            set (setExpenses (fun prev => savedExpense :: prev));;
            set (setAmount (js ""));;
            set (setDescription (js ""));;
            set (setCategory (js "Food"));;
            set (setShowAddModal false))
         (fun error => alert (js "Error") error))
      (set (setLoading false)).

Definition deleteExpenseAPI (id : ExpenseId) : Prog unit :=
  set (setLoading true);;
  try_finally
    (try_catch
       (response ← fetch (DELETE_expense id);
        if negb (ok response) then Throw (js "Failed to delete expense")
        else
          set (setExpenses (fun prev =>
                 filter (fun expense => strict_not_equal (Expense.id expense) id) prev)))
       (fun error => alert (js "Error") error))
    (set (setLoading false)).

(** The prompt has the buttons Cancel (index 0) and Delete (index 1);
    only Delete has an [onPress]. *)
Definition deleteExpense (id : ExpenseId) : Prog unit :=
  AlertAlert (js "Delete Expense") (js "Are you sure you want to delete this expense?")
    [js "Cancel"; js "Delete"]
    (fun pressed =>
       match pressed with
       | Some 1%nat => deleteExpenseAPI id
       | _ => Return tt
       end).

(** ** The projections *)

Definition getFilteredExpenses (self : State) : list Expense.t :=
  if decide (selectedFilter self = js "All") then expenses self
  else filter (fun expense => Expense.category expense = selectedFilter self)
              (expenses self).

Definition getTotalAmount (self : State) : number :=
  let filtered := getFilteredExpenses self in
  foldl (fun total expense => add total (Expense.amount expense)) zero filtered.

Definition icons : gmap jsstring Value :=
  list_to_map
    [ (js "Food", VString (js "🍔"));
      (js "Transportation", VString (js "🚌"));
      (js "Entertainment", VString (js "🎬"));
      (js "Shopping", VString (js "🛍️"));
      (js "Bills", VString (js "🧾"));
      (js "Health", VString (js "💊"));
      (js "Other", VString (js "📦")) ].

Definition getCategoryIcon (category : jsstring) : Value :=
  logical_or (get icons category) (VString (js "📦")).

(** ** Vocabulary of the properties *)

(** The sum of a list of amounts, as the running total the screen shows:
    from 0, adding the amounts from first to last. *)
Definition sum (amounts : list number) : number := foldl add zero amounts.

(** A remote call fails when the request cannot be made or the status is
    outside 200-299. *)
Definition call_failed {T} (settled : Settled T) : bool :=
  match settled with
  | Fulfilled response => negb (ok response)
  | Rejected _ => true
  end.

(** The three operations of the screen. [Submit self] is the submit
    action of the render whose state is [self]. *)
Variant Operation :=
  | Load
  | Submit (self : State)
  | Remove (id : ExpenseId).

Definition handler (op : Operation) : Prog unit :=
  match op with
  | Load => fetchExpenses
  | Submit self => addExpense self
  | Remove id => deleteExpense id
  end.

(** The list, the pending inputs, the dialog flag and the filter of [b]
    are those of [a]; only the in-flight flag may differ. *)
Definition untouched (a b : State) : Prop :=
  expenses b = expenses a /\ amount b = amount a
  /\ description b = description a /\ category b = category a
  /\ showAddModal b = showAddModal a /\ selectedFilter b = selectedFilter a.

(** No two positions of the list hold records with equal ids. *)
Definition unique_ids (l : list Expense.t) : Prop :=
  forall i j a b,
    l !! i = Some a -> l !! j = Some b ->
    strict_equal (Expense.id a) (Expense.id b) = true -> i = j.

(** The number a strict comparison sees: none for NaN, one zero. *)
Definition comparand (x : number) : option number :=
  match x with
  | S754_nan => None
  | S754_zero _ => Some zero
  | _ => Some x
  end.

(** What a handler leaves behind when the call to [r] did not go
    through: the in-flight flag set and cleared, the request, the alert. *)
Definition gave_up (st : State) (r : Request) (message : jsstring) : Outcome unit :=
  mkOutcome (Normal tt) (setLoading false (setLoading true st))
            [Requested r; Alerted (js "Error") message []].

(** The request [addExpense] sends from the render [self] at time
    [timestamp]. *)
Definition create_request (self : State) (timestamp : jsstring) : Request :=
  POST_expenses
    (JSON_stringify
       {| NewExpense.amount := parseFloat (amount self);
          NewExpense.description := trim (description self);
          NewExpense.category := category self;
          NewExpense.date := timestamp |}).

(** ** Scenarios *)

Module Scenario.

Definition lunch : Expense.t :=
  Expense.mk (IdNumber (of_Z 1 0)) (of_Z 25 (-1)) (js "Lunch") (js "Food")
             (js "2024-03-01T12:00:00.000Z").

Definition power : Expense.t :=
  Expense.mk (IdNumber (of_Z 2 0)) (of_Z 40 0) (js "Power") (js "Bills")
             (js "2024-03-02T08:30:00.000Z").

(** A second record that carries the id of [lunch]. *)
Definition snack : Expense.t :=
  Expense.mk (IdNumber (of_Z 1 0)) (of_Z 3 0) (js "Snack") (js "Food")
             (js "2024-03-03T16:00:00.000Z").

Definition coffee : Expense.t :=
  Expense.mk (IdNumber (of_Z 3 0)) (of_Z 20 0) (js "Coffee") (js "Food")
             (js "2024-03-04T09:15:00.000Z").

(** The screen with two records, the filter on [filter], and the add
    dialog open on the pending inputs. *)
Definition screen (filter amount description : jsstring) : State :=
  {| expenses := [lunch; power]; amount := amount; description := description;
     category := js "Bills"; showAddModal := true; selectedFilter := filter;
     loading := false |}.

(** The screen when a second record carries the id of [lunch]. *)
Definition crowded : State :=
  {| expenses := [lunch; power; snack]; amount := []; description := [];
     category := js "Food"; showAddModal := false; selectedFilter := js "All";
     loading := false |}.

(** A service that creates [coffee], lists it, and deletes anything. *)
Definition up : World :=
  {| server := fun r =>
       match r with
       | GET_expenses => Fulfilled (mkResponse 200 (Json [coffee]))
       | POST_expenses _ => Fulfilled (mkResponse 201 (Json coffee))
       | DELETE_expense _ => Fulfilled (mkResponse 204 (NotJson (js "Unexpected end of input")))
       end;
     clock := js "2024-03-04T09:15:00.000Z";
     press := Some 1%nat |}.

(** A service that answers every request with status 500. *)
Definition failing : World :=
  {| server := fun r =>
       match r with
       | GET_expenses => Fulfilled (mkResponse 500 (NotJson (js "Unexpected token")))
       | POST_expenses _ => Fulfilled (mkResponse 500 (NotJson (js "Unexpected token")))
       | DELETE_expense _ => Fulfilled (mkResponse 500 (NotJson (js "Unexpected token")))
       end;
     clock := js "2024-03-04T09:15:00.000Z";
     press := Some 1%nat |}.

(** No network. *)
Definition offline : World :=
  {| server := fun r =>
       match r with
       | GET_expenses => Rejected (js "Network request failed")
       | POST_expenses _ => Rejected (js "Network request failed")
       | DELETE_expense _ => Rejected (js "Network request failed")
       end;
     clock := js "2024-03-04T09:15:00.000Z";
     press := Some 1%nat |}.

End Scenario.

(** ** The screen as an event loop

    Handlers are asynchronous: one runs until it waits for a reply (or,
    for the delete prompt, for a button), and other events are handled
    in between. The loop below takes one input at a time, a touch on
    something the screen renders or the arrival of something a handler
    waits for, and runs the code that input triggers up to its next
    wait. An alert without buttons of its own does not hold its caller
    up. That an open dialog or alert covers the controls behind it is not
    modelled: the loop allows more orders of inputs than a finger can
    produce, never fewer. *)

Variant Suspended :=
  | AwaitingReply (r : Request) (k : Settled (Reply r) -> Prog unit)
  | AwaitingPress (title message : jsstring) (buttons : list jsstring)
                  (k : option nat -> Prog unit).

Variant Pause :=
  | Finished (c : Completion unit)
  | Parked (s : Suspended).

Record Segment := mkSegment {
  reached : State;
  pause : Pause;
  emitted : list Event
}.

Definition emit (e : Event) (seg : Segment) : Segment :=
  mkSegment (reached seg) (pause seg) (e :: emitted seg).

(** Run [p] from [st] up to its next wait; [timestamp] is what the clock
    reads meanwhile. *)
Fixpoint advance (p : Prog unit) (timestamp : jsstring) (st : State) : Segment :=
  match p with
  | Return a => mkSegment st (Finished (Normal a)) []
  | Throw m => mkSegment st (Finished (Thrown m)) []
  | Update u k => advance k timestamp (u st)
  | Await r k => mkSegment st (Parked (AwaitingReply r k)) [Requested r]
  | AlertAlert t m [] k => emit (Alerted t m []) (advance (k None) timestamp st)
  | AlertAlert t m bs k => mkSegment st (Parked (AwaitingPress t m bs k)) [Alerted t m bs]
  | NewDate k => advance (k timestamp) timestamp st
  end.

(** The component between two inputs: its state and the handlers that
    wait, oldest first. *)
Record System := mkSystem {
  store : State;
  parked : list Suspended
}.

Definition launch (p : Prog unit) (timestamp : jsstring) (sys : System)
  : System * list Event :=
  let seg := advance p timestamp (store sys) in
  (mkSystem (reached seg)
            (match pause seg with
             | Parked s => parked sys ++ [s]
             | Finished _ => parked sys
             end),
   emitted seg).

Definition update (f : State -> State) (sys : System) : System * list Event :=
  (mkSystem (f (store sys)) (parked sys), []).

(** The filter bar: [['All', ...categories].map(renderFilterButton)]. *)
Definition filterButtons : list jsstring := js "All" :: categories.

Variant Input :=
  | PressFilter (filterCategory : jsstring)   (* a button of the filter bar *)
  | PressAdd                                  (* the + button *)
  | CloseModal                                (* the dialog's close button, or back *)
  | ChangeAmount (text : jsstring)
  | ChangeDescription (text : jsstring)
  | PressCategory (cat : jsstring)            (* a button of the category picker *)
  | PressSave                                 (* "Add Expense" *)
  | PressDelete (row : nat)                   (* the delete button of a row of the list *)
  | Settle (n : nat) (reply : forall r : Request, Settled (Reply r))
                                              (* the request parked at [n] is answered *)
  | PressButton (n : nat) (pressed : option nat).
                                              (* the prompt parked at [n] is answered *)

(** One turn of the loop; [None] when the screen does not offer the
    input: a filter or category that has no button, a control of the
    dialog while the dialog is hidden, a row that is not shown, a reply or
    a press nothing waits for, a button the prompt does not have. *)
Definition step (timestamp : jsstring) (i : Input) (sys : System)
  : option (System * list Event) :=
  let st := store sys in
  match i with
  | PressFilter filterCategory =>
      if decide (filterCategory ∈ filterButtons)
      then Some (update (setSelectedFilter filterCategory) sys) else None
  | PressAdd => Some (update (setShowAddModal true) sys)
  | CloseModal =>
      if showAddModal st then Some (update (setShowAddModal false) sys) else None
  | ChangeAmount text =>
      if showAddModal st then Some (update (setAmount text) sys) else None
  | ChangeDescription text =>
      if showAddModal st then Some (update (setDescription text) sys) else None
  | PressCategory cat =>
      if showAddModal st && bool_decide (cat ∈ categories)
      then Some (update (setCategory cat) sys) else None
  | PressSave =>
      if showAddModal st then Some (launch (addExpense st) timestamp sys) else None
  | PressDelete row =>
      if loading st then None
      else match getFilteredExpenses st !! row with
           | Some item => Some (launch (deleteExpense (Expense.id item)) timestamp sys)
           | None => None
           end
  | Settle n reply =>
      match parked sys !! n with
      | Some (AwaitingReply r k) =>
          Some (launch (k (reply r)) timestamp (mkSystem st (delete n (parked sys))))
      | _ => None
      end
  | PressButton n pressed =>
      match parked sys !! n with
      | Some (AwaitingPress _ _ buttons k) =>
          if match pressed with
             | Some b => (b <? length buttons)%nat
             | None => true
             end
          then Some (launch (k pressed) timestamp (mkSystem st (delete n (parked sys))))
          else None
      | _ => None
      end
  end.

(** The first render and its effect: [useEffect(() => { fetchExpenses(); }, [])]. *)
Definition mount (timestamp : jsstring) : System * list Event :=
  launch fetchExpenses timestamp (mkSystem initial []).

(** The systems a run of the loop can be in, with everything the world
    has seen of the run so far. *)
Inductive reachable : System -> list Event -> Prop :=
  | reachable_mount timestamp :
      reachable (mount timestamp).1 (mount timestamp).2
  | reachable_step sys trace timestamp i sys' events :
      reachable sys trace ->
      step timestamp i sys = Some (sys', events) ->
      reachable sys' (trace ++ events).

(** The same, run from a script of inputs. *)
Fixpoint play (script : list (jsstring * Input)) (sys : System) (trace : list Event)
  : option (System * list Event) :=
  match script with
  | [] => Some (sys, trace)
  | (timestamp, i) :: rest =>
      match step timestamp i sys with
      | Some (sys', events) => play rest sys' (trace ++ events)
      | None => None
      end
  end.

(** The buttons drawn highlighted: [selectedFilter === filterCategory] in
    [renderFilterButton], [category === cat] in the category picker. *)
Definition activeFilterButtons (self : State) : list jsstring :=
  filter (fun filterCategory => selectedFilter self = filterCategory) filterButtons.

Definition activeCategoryButtons (self : State) : list jsstring :=
  filter (fun cat => category self = cat) categories.

(** *** What the loop keeps *)

(** The pending category and the filter are among those that have a
    button. *)
Definition good_state (st : State) : Prop :=
  category st ∈ categories /\ selectedFilter st ∈ filterButtons.

(** A string that neither starts nor ends with white space. *)
Definition tidy (s : jsstring) : Prop :=
  (forall c, head s = Some c -> is_trimmable c = false)
  /\ (forall c, last s = Some c -> is_trimmable c = false).

(** A create request carries the four members, a category of the closed
    set, a tidy description, and an amount that is a number or null. *)
Definition good_event (e : Event) : Prop :=
  match e with
  | Requested (POST_expenses body) =>
      exists amount description category date,
        body = JObject [ (js "amount", amount);
                         (js "description", JString description);
                         (js "category", JString category);
                         (js "date", JString date) ]
        /\ (amount = JNull \/ exists x, amount = JNumber x /\ isFinite x = true)
        /\ tidy description
        /\ category ∈ categories
  | _ => True
  end.

(** What a handler that waited for the answer to [r] does when the
    answer is [reply] and the state is then [st]. What it reads of the
    answer: the value of the body, or the message it will alert. *)
Definition reading {T} (fixed : jsstring) (reply : Settled T) : Body T :=
  match reply with
  | Rejected message => NotJson message
  | Fulfilled response => if ok response then body response else NotJson fixed
  end.

Definition settled (r : Request) : Settled (Reply r) -> State -> State :=
  match r with
  | GET_expenses => fun reply st =>
      setLoading false
        match reading (js "Failed to fetch expenses") reply with
        | Json data => setExpenses (fun _ => data) st
        | NotJson _ => st
        end
  | POST_expenses _ => fun reply st =>
      setLoading false
        match reading (js "Failed to add expense") reply with
        | Json savedExpense =>
            setShowAddModal false
              (setCategory (js "Food")
                 (setDescription (js "")
                    (setAmount (js "")
                       (setExpenses (fun prev => savedExpense :: prev) st))))
        | NotJson _ => st
        end
  | DELETE_expense id => fun reply st =>
      setLoading false
        (if call_failed reply then st
         else setExpenses
                (filter (fun expense => strict_not_equal (Expense.id expense) id)) st)
  end.

Definition complaint (r : Request) : Settled (Reply r) -> list Event :=
  let alerted {T} (b : Body T) : list Event :=
    match b with
    | Json _ => []
    | NotJson message => [Alerted (js "Error") message []]
    end in
  match r with
  | GET_expenses => fun reply => alerted (reading (js "Failed to fetch expenses") reply)
  | POST_expenses _ => fun reply => alerted (reading (js "Failed to add expense") reply)
  | DELETE_expense _ => fun reply =>
      if call_failed reply
      then alerted (reading (js "Failed to delete expense") reply)
      else []
  end.

(** A handler that waits for a reply does just that with it, whatever
    the reply and the state it arrives in, and then has ended. *)
Definition reply_ok (r : Request) (k : Settled (Reply r) -> Prog unit) : Prop :=
  forall reply timestamp st,
    advance (k reply) timestamp st
    = mkSegment (settled r reply st) (Finished (Normal tt)) (complaint r reply).

(** A prompt that waits for a button either ends with nothing done, or
    sets the in-flight flag and sends a delete request. *)
Definition parked_ok (s : Suspended) : Prop :=
  match s with
  | AwaitingReply r k => reply_ok r k
  | AwaitingPress _ _ _ k =>
      forall pressed timestamp st,
        advance (k pressed) timestamp st = mkSegment st (Finished (Normal tt)) []
        \/ exists id k',
             advance (k pressed) timestamp st
             = mkSegment (setLoading true st)
                         (Parked (AwaitingReply (DELETE_expense id) k'))
                         [Requested (DELETE_expense id)]
             /\ reply_ok (DELETE_expense id) k'
  end.

Definition invariant (sys : System) : Prop :=
  good_state (store sys) /\ Forall parked_ok (parked sys).

(** * Properties *)

(** [settle H] discharges the premises of [H] that hold by computation
    on closed terms. *)
Ltac settle H :=
  repeat match type of H with
         | ?P -> _ =>
             let HP := fresh in
             assert (HP : P) by (first [discriminate | vm_compute; reflexivity]);
             specialize (H HP); clear HP
         end.

(** ** The built-ins on examples *)

Example js_ascii : js "All" = [0x41; 0x6C; 0x6C].
Proof. reflexivity. Qed.

Example js_astral : js "📦" = [0xD83D; 0xDCE6].
Proof. reflexivity. Qed.

Example js_bmp : js "✕é" = [0x2715; 0xE9].
Proof. reflexivity. Qed.

Example trim_both : trim (js "  Coffee " ++ [0x09]) = js "Coffee".
Proof. reflexivity. Qed.

Example parseFloat_20 : parseFloat (js "20") = of_Z 20 0.
Proof. vm_compute. reflexivity. Qed.

Example parseFloat_12_50 : parseFloat (js "12.50") = of_Z 25 (-1).
Proof. vm_compute. reflexivity. Qed.

Example parseFloat_tenth :
  parseFloat (js " 0.1kg") = S754_finite false 0x1999999999999A (-56).
Proof. vm_compute. reflexivity. Qed.

Example parseFloat_exp : parseFloat (js "-2.5e3") = of_Z (-2500) 0.
Proof. vm_compute. reflexivity. Qed.

Example parseFloat_bare_e : parseFloat (js "7e") = of_Z 7 0.
Proof. vm_compute. reflexivity. Qed.

Example parseFloat_tiny : parseFloat (js "5e-324") = S754_finite false 1 (-1074).
Proof. vm_compute. reflexivity. Qed.

Example parseFloat_tiny3 : parseFloat (js "3e-324") = S754_finite false 1 (-1074).
Proof. vm_compute. reflexivity. Qed.

Example parseFloat_tiny2 : parseFloat (js "2e-324") = zero.
Proof. vm_compute. reflexivity. Qed.

Example parseFloat_max : parseFloat (js "1.7976931348623157e308") = S754_finite false 0x1FFFFFFFFFFFFF 971.
Proof. vm_compute. reflexivity. Qed.

Example parseFloat_over : parseFloat (js "1.7976931348623159e308") = Infinity.
Proof. vm_compute. reflexivity. Qed.

Example parseFloat_over0 : parseFloat (js "1.7976931348623158e308") = S754_finite false 0x1FFFFFFFFFFFFF 971.
Proof. vm_compute. reflexivity. Qed.

Example parseFloat_digits_overflow :
  parseFloat (js "1" ++ repeat 0x30 308%nat) = of_Z (10 ^ 308) 0
  /\ parseFloat (js "1" ++ repeat 0x30 309%nat) = Infinity.
Proof. split; vm_compute; reflexivity. Qed.

Example parseFloat_Infinity :
  parseFloat (js "Infinity") = Infinity /\ parseFloat (js "-Infinity") = S754_infinity true.
Proof. split; reflexivity. Qed.

Example parseFloat_abc : parseFloat (js "abc") = NaN.
Proof. vm_compute. reflexivity. Qed.

Example parseFloat_dot : parseFloat (js ".") = NaN.
Proof. vm_compute. reflexivity. Qed.

Example parseFloat_dot5 : parseFloat (js "-.5") = of_Z (-1) (-1).
Proof. vm_compute. reflexivity. Qed.

Example get_test : get ∅ (js "toString") = VFunction (js "toString").
Proof. vm_compute. reflexivity. Qed.

(** ** Filtering keeps the matching records, in order *)

Section Filter.
Context {A : Type} (P : A -> Prop) `{!forall x, Decision (P x)}.

(** Any selection of records of [l] that all satisfy [P] is found, in
    the same order, inside [filter P l]. *)
Lemma filter_greatest (l r : list A) :
  r `sublist_of` l -> Forall P r -> r `sublist_of` filter P l.
Proof.
  induction 1 as [|x r l Hsub IH|x r l Hsub IH]; intros Hall.
  - constructor.
  - inversion Hall; subst.
    rewrite filter_cons_True by assumption.
    apply sublist_skip; auto.
  - destruct (decide (P x)).
    + rewrite filter_cons_True by assumption. apply sublist_cons; auto.
    + rewrite filter_cons_False by assumption. auto.
Qed.

Lemma filter_all (l : list A) : Forall P l -> filter P l = l.
Proof.
  induction 1 as [|x l Hx Hl IH]; [reflexivity|].
  rewrite filter_cons_True by assumption. now rewrite IH.
Qed.

Lemma filter_none (l : list A) : Forall (fun x => ~ P x) l -> filter P l = [].
Proof.
  induction 1 as [|x l Hx Hl IH]; [reflexivity|].
  now rewrite filter_cons_False by assumption.
Qed.

(** What is kept and what is dropped add up to the list. *)
Lemma filter_split_length (l : list A) :
  (length (filter P l) + length (filter (fun x => ~ P x) l) = length l)%nat.
Proof.
  induction l as [|x l IH]; [reflexivity|].
  destruct (decide (P x)).
  - rewrite filter_cons_True, (filter_cons_False (fun x => ~ P x)) by tauto.
    simpl. lia.
  - rewrite filter_cons_False, (filter_cons_True (fun x => ~ P x)) by tauto.
    simpl. lia.
Qed.
End Filter.

(** ** The projections *)

Lemma getFilteredExpenses_All (self : State) :
  selectedFilter self = js "All" -> getFilteredExpenses self = expenses self.
Proof.
  intros Hall. unfold getFilteredExpenses.
  destruct (decide (selectedFilter self = js "All")); [reflexivity | contradiction].
Qed.

Lemma getFilteredExpenses_category (self : State) :
  selectedFilter self <> js "All" ->
  getFilteredExpenses self
  = filter (fun expense => Expense.category expense = selectedFilter self) (expenses self).
Proof.
  intros Hcat. unfold getFilteredExpenses.
  destruct (decide (selectedFilter self = js "All")); [contradiction | reflexivity].
Qed.

(** The sum is the running total: nothing for no record, and one more
    addition for one more record at the end. *)
Lemma sum_nil : sum [] = zero.
Proof. reflexivity. Qed.

Lemma sum_snoc (amounts : list number) (x : number) :
  sum (amounts ++ [x]) = add (sum amounts) x.
Proof. unfold sum. now rewrite foldl_app. Qed.

Lemma getTotalAmount_fold (self : State) :
  getTotalAmount self = sum (Expense.amount <$> getFilteredExpenses self).
Proof. unfold getTotalAmount, sum. now rewrite foldl_fmap. Qed.

(** C1. The total is the sum of the amounts of the filtered view: of all
    records under the filter "All", of exactly the records of category [c]
    under a category filter [c], and 0 when no record has that category. *)
Theorem getTotalAmount_sum (self : State) :
  let c := selectedFilter self in
  getTotalAmount self = sum (Expense.amount <$> getFilteredExpenses self)
  /\ (c = js "All" ->
      getTotalAmount self = sum (Expense.amount <$> expenses self))
  /\ (c <> js "All" ->
      getTotalAmount self
      = sum (Expense.amount <$>
               filter (fun expense => Expense.category expense = c) (expenses self)))
  /\ (c <> js "All" ->
      Forall (fun expense => Expense.category expense <> c) (expenses self) ->
      getTotalAmount self = zero).
Proof.
  intros c. split; [apply getTotalAmount_fold|].
  split; [|split].
  - intros Hall. rewrite getTotalAmount_fold.
    now rewrite getFilteredExpenses_All.
  - intros Hcat. rewrite getTotalAmount_fold.
    now rewrite getFilteredExpenses_category.
  - intros Hcat Hnone. rewrite getTotalAmount_fold.
    rewrite getFilteredExpenses_category by assumption.
    now rewrite filter_none.
Qed.

(** On the two records of the scenario: 12.50 under "Food", 52.50 under
    "All", 0 under "Health". *)
Lemma getTotalAmount_sum_witness :
  getTotalAmount (Scenario.screen (js "Food") [] []) = of_Z 25 (-1)
  /\ getTotalAmount (Scenario.screen (js "All") [] []) = of_Z 105 (-1)
  /\ getTotalAmount (Scenario.screen (js "Health") [] []) = zero.
Proof.
  split; [|split].
  - destruct (getTotalAmount_sum (Scenario.screen (js "Food") [] []))
      as (_ & _ & Hcat & _).
    rewrite Hcat; [vm_compute; reflexivity | discriminate].
  - destruct (getTotalAmount_sum (Scenario.screen (js "All") [] []))
      as (_ & Hall & _).
    rewrite Hall; [vm_compute; reflexivity | reflexivity].
  - destruct (getTotalAmount_sum (Scenario.screen (js "Health") [] []))
      as (_ & _ & _ & Hnone).
    apply Hnone; [discriminate | repeat constructor; discriminate].
Defined.

(** C2. Under "All" the view is the list itself; under a category [c] it
    is the subsequence of the list made of exactly the records of
    category [c]: it is in list order, it holds the matching records and
    only them, and every in-order selection of matching records lies
    within it. *)
Theorem getFilteredExpenses_view (self : State) :
  let c := selectedFilter self in
  let view := getFilteredExpenses self in
  (c = js "All" -> view = expenses self)
  /\ (c <> js "All" ->
      view `sublist_of` expenses self
      /\ (forall expense,
            expense ∈ view <-> expense ∈ expenses self /\ Expense.category expense = c)
      /\ (forall r,
            r `sublist_of` expenses self ->
            Forall (fun expense => Expense.category expense = c) r ->
            r `sublist_of` view)).
Proof.
  intros c view. split.
  - apply getFilteredExpenses_All.
  - intros Hcat. unfold view. rewrite getFilteredExpenses_category by assumption.
    split; [apply sublist_filter|]. split.
    + intros expense. rewrite list_elem_of_filter. tauto.
    + intros r. apply filter_greatest.
Qed.

Lemma getFilteredExpenses_view_witness :
  getFilteredExpenses (Scenario.screen (js "All") [] []) = [Scenario.lunch; Scenario.power]
  /\ [Scenario.lunch] `sublist_of` getFilteredExpenses (Scenario.screen (js "Food") [] [])
  /\ length (getFilteredExpenses (Scenario.screen (js "Food") [] [])) = 1%nat.
Proof.
  split; [|split].
  - apply (getFilteredExpenses_view (Scenario.screen (js "All") [] [])). reflexivity.
  - destruct (getFilteredExpenses_view (Scenario.screen (js "Food") [] []))
      as (_ & Hcat).
    destruct Hcat as (_ & _ & Hmax); [discriminate|].
    apply Hmax.
    + apply sublist_skip, sublist_nil_l.
    + repeat constructor.
  - reflexivity.
Defined.

(** ** The icon lookup *)

(** The own properties of [icons] are the seven categories. *)
Lemma icons_unknown (s : jsstring) : s ∉ categories -> icons !! s = None.
Proof.
  intros Hs. unfold icons. apply not_elem_of_list_to_map_1. exact Hs.
Qed.

(** Each of the seven categories has a glyph of its own in [icons], and
    none is the empty string. *)
Lemma getCategoryIcon_categories :
  Forall (fun c => exists glyph, getCategoryIcon c = VString glyph /\ glyph <> [])
         categories.
Proof.
  unfold categories.
  repeat (constructor; [eexists; split; [vm_compute; reflexivity | discriminate]|]).
  constructor.
Qed.

(** A string that names neither a category nor a property of
    [Object.prototype] gets the default glyph. *)
Lemma getCategoryIcon_default (s : jsstring) :
  s ∉ categories -> Object_prototype !! s = None ->
  getCategoryIcon s = VString (js "📦").
Proof.
  intros Hs Hproto. unfold getCategoryIcon, get.
  now rewrite icons_unknown, Hproto.
Qed.

(** C7. The seven categories have non-empty glyphs, and a string outside
    them gets the default glyph unless it names a property that the
    [icons] object inherits: for "constructor" the lookup yields the
    function [Object], which is truthy, so that function is returned and
    not the default glyph. *)
Theorem getCategoryIcon_inherited_property :
  Forall (fun c => exists glyph, getCategoryIcon c = VString glyph /\ glyph <> [])
         categories
  /\ (js "constructor" ∉ categories)
  /\ getCategoryIcon (js "constructor") = VFunction (js "Object")
  /\ getCategoryIcon (js "constructor") <> VString (js "📦").
Proof.
  split; [apply getCategoryIcon_categories|].
  split; [|split].
  - unfold categories. rewrite !not_elem_of_cons. 
    repeat (split; [discriminate|]). apply not_elem_of_nil.
  - vm_compute. reflexivity.
  - vm_compute. discriminate.
Qed.

(** C10. The glyph of "Other" is the default glyph, the one returned for
    every string the lookup finds nothing for; so the lookup sends a
    category and a string that is no category to the same glyph, and is
    not injective. *)
Theorem getCategoryIcon_not_injective :
  getCategoryIcon (js "Other") = VString (js "📦")
  /\ (forall s, get icons s = VUndefined ->
        getCategoryIcon s = getCategoryIcon (js "Other"))
  /\ (exists a b, a ∈ categories /\ (b ∉ categories) /\ a <> b
        /\ getCategoryIcon a = getCategoryIcon b)
  /\ ~ (forall a b, getCategoryIcon a = getCategoryIcon b -> a = b).
Proof.
  split; [vm_compute; reflexivity|].
  split; [|split].
  - intros s Hs. unfold getCategoryIcon at 1. rewrite Hs. vm_compute. reflexivity.
  - exists (js "Other"), (js "Misc").
    split; [|split; [|split]].
    + unfold categories. rewrite !elem_of_cons. do 6 right. left. reflexivity.
    + unfold categories. rewrite !not_elem_of_cons.
      repeat (split; [discriminate|]). apply not_elem_of_nil.
    + discriminate.
    + vm_compute. reflexivity.
  - intros Hinj. specialize (Hinj (js "Other") (js "Misc")).
    discriminate Hinj. vm_compute. reflexivity.
Qed.

Lemma getCategoryIcon_not_injective_witness :
  getCategoryIcon (js "Misc") = getCategoryIcon (js "Other")
  /\ getCategoryIcon (js "") = getCategoryIcon (js "Other").
Proof.
  destruct getCategoryIcon_not_injective as (_ & Hdefault & _).
  split; apply Hdefault; vm_compute; reflexivity.
Defined.

(** ** The handlers, run *)

Lemma run_fetchExpenses (w : World) (st : State) :
  run fetchExpenses w st =
  match server w GET_expenses with
  | Fulfilled response =>
      if ok response then
        match body response with
        | Json data =>
            mkOutcome (Normal tt)
              (setLoading false (setExpenses (fun _ => data) (setLoading true st)))
              [Requested GET_expenses]
        | NotJson message => gave_up st GET_expenses message
        end
      else gave_up st GET_expenses (js "Failed to fetch expenses")
  | Rejected message => gave_up st GET_expenses message
  end.
Proof.
  unfold fetchExpenses. cbn.
  destruct (server w GET_expenses) as [response|message]; cbn; [|reflexivity].
  destruct (ok _); cbn; [|reflexivity].
  unfold json. destruct (body _); reflexivity.
Qed.

Lemma run_deleteExpenseAPI (w : World) (st : State) (id : ExpenseId) :
  run (deleteExpenseAPI id) w st =
  match server w (DELETE_expense id) with
  | Fulfilled response =>
      if ok response then
        mkOutcome (Normal tt)
          (setLoading false
             (setExpenses
                (filter (fun expense => strict_not_equal (Expense.id expense) id))
                (setLoading true st)))
          [Requested (DELETE_expense id)]
      else gave_up st (DELETE_expense id) (js "Failed to delete expense")
  | Rejected message => gave_up st (DELETE_expense id) message
  end.
Proof.
  unfold deleteExpenseAPI. cbn.
  destruct (server w (DELETE_expense id)) as [response|message]; cbn; [|reflexivity].
  destruct (ok _); reflexivity.
Qed.

Lemma run_deleteExpense (w : World) (st : State) (id : ExpenseId) :
  run (deleteExpense id) w st =
  after (Alerted (js "Delete Expense")
                 (js "Are you sure you want to delete this expense?")
                 [js "Cancel"; js "Delete"])
        (match press w with
         | Some 1%nat => run (deleteExpenseAPI id) w st
         | _ => mkOutcome (Normal tt) st []
         end).
Proof.
  unfold deleteExpense. cbn [run].
  destruct (press w) as [[|[|n]]|]; reflexivity.
Qed.

Lemma run_addExpense_empty (self : State) (w : World) (st : State) :
  amount self = [] \/ description self = [] ->
  run (addExpense self) w st
  = mkOutcome (Normal tt) st [Alerted (js "Error") (js "Please fill in all fields") []].
Proof.
  intros Hempty. unfold addExpense.
  assert (negb (string_truthy (amount self)) || negb (string_truthy (description self)) = true)
    as ->; [|reflexivity].
  destruct Hempty as [-> | ->]; [reflexivity|].
  apply orb_true_r.
Qed.

Lemma run_addExpense_not_a_number (self : State) (w : World) (st : State) :
  amount self <> [] -> description self <> [] ->
  isNaN (parseFloat (amount self)) = true ->
  run (addExpense self) w st
  = mkOutcome (Normal tt) st [Alerted (js "Error") (js "Please enter a valid amount") []].
Proof.
  intros Ha Hd Hnan. unfold addExpense. rewrite Hnan.
  destruct (amount self); [contradiction|].
  destruct (description self); [contradiction|]. reflexivity.
Qed.

Lemma run_addExpense_valid (self : State) (w : World) (st : State) :
  amount self <> [] -> description self <> [] ->
  isNaN (parseFloat (amount self)) = false ->
  run (addExpense self) w st =
  let r := create_request self (clock w) in
  match server w r with
  | Fulfilled response =>
      if ok response then
        match body response with
        | Json savedExpense =>
            mkOutcome (Normal tt)
              {| expenses := savedExpense :: expenses st;
                 amount := js "";
                 description := js "";
                 category := js "Food";
                 showAddModal := false;
                 selectedFilter := selectedFilter st;
                 loading := false |}
              [Requested r]
        | NotJson message => gave_up st r message
        end
      else gave_up st r (js "Failed to add expense")
  | Rejected message => gave_up st r message
  end.
Proof.
  intros Ha Hd Hnum. unfold addExpense. rewrite Hnum.
  destruct (amount self) eqn:Ea; [contradiction|].
  destruct (description self) eqn:Ed; [contradiction|].
  cbn [string_truthy negb orb]. cbn -[parseFloat trim JSON_stringify].
  unfold create_request. rewrite Ea, Ed.
  match goal with |- context [server w ?r] => destruct (server w r) as [response|message] end;
    cbn -[parseFloat trim JSON_stringify]; [|reflexivity].
  destruct (ok _); cbn -[parseFloat trim JSON_stringify]; [|reflexivity].
  unfold json. destruct (body _); reflexivity.
Qed.

(** ** Strict equality of identifiers *)

Lemma number_strict_equal_comparand (x y : number) :
  number_strict_equal x y = true
  <-> exists k, comparand x = Some k /\ comparand y = Some k.
Proof.
  unfold number_strict_equal, SFeqb, SFcompare. split.
  - destruct x as [sx|sx| |sx mx ex], y as [sy|sy| |sy my ey]; simpl;
      try discriminate; try (destruct sx; discriminate);
      try (destruct sy; discriminate).
    + intros _. now exists zero.
    + destruct sx, sy; try discriminate; intros _; eexists; split; reflexivity.
    + destruct sx, sy; try discriminate;
        destruct (Z.compare ex ey) eqn:He; try discriminate;
        apply Z.compare_eq in He; subst ey;
        destruct (Pos.compare_cont Eq mx my) eqn:Hm; try discriminate;
        apply Pos.compare_eq in Hm; subst my;
        intros _; eexists; split; reflexivity.
  - intros (k & Hx & Hy).
    destruct x as [sx|sx| |sx mx ex], y as [sy|sy| |sy my ey];
      unfold comparand, zero in *; try discriminate; try congruence; simpl;
      try reflexivity.
    + assert (sx = sy) as -> by congruence. now destruct sy.
    + assert (sx = sy /\ mx = my /\ ex = ey) as (-> & -> & ->)
        by (repeat split; congruence).
      rewrite Z.compare_refl.
      change (Pos.compare_cont Eq my my) with (Pos.compare my my).
      rewrite Pos.compare_refl. now destruct sy.
Qed.

(** Two identifiers equal to a third are equal to each other. *)
Lemma strict_equal_join (a b x : ExpenseId) :
  strict_equal a x = true -> strict_equal b x = true -> strict_equal a b = true.
Proof.
  destruct a as [na|sa], b as [nb|sb], x as [nx|sx]; simpl; try discriminate.
  - rewrite !number_strict_equal_comparand.
    intros (k & Ha & Hx) (k' & Hb & Hx'). exists k. split; congruence.
  - rewrite !bool_decide_eq_true. congruence.
Qed.

(** On string identifiers, and on numbers other than NaN and the zeros,
    strict equality is equality. *)
Lemma strict_equal_string (s : jsstring) (b : ExpenseId) :
  strict_equal (IdString s) b = true <-> b = IdString s.
Proof.
  destruct b as [n|t]; simpl.
  - split; discriminate.
  - rewrite bool_decide_eq_true. split; congruence.
Qed.

Lemma strict_equal_number (s : bool) (m : positive) (e : Z) (b : ExpenseId) :
  strict_equal (IdNumber (S754_finite s m e)) b = true
  <-> b = IdNumber (S754_finite s m e).
Proof.
  destruct b as [n|t]; simpl.
  - rewrite number_strict_equal_comparand. simpl. split.
    + intros (k & Hk & Hn). destruct n; unfold comparand, zero in *; congruence.
    + intros [= ->]. eexists; split; reflexivity.
  - split; discriminate.
Qed.

(** ** Submit *)

(** C3. When the pending amount is empty, the pending description is
    empty, or the amount does not parse as a number, submit sends no
    request, shows one alert titled "Error", and leaves the whole state,
    the list and the input fields included, as it was. *)
Theorem addExpense_rejects_invalid_input (self : State) (w : World) (st : State) :
  amount self = [] \/ description self = []
  \/ isNaN (parseFloat (amount self)) = true ->
  let out := run (addExpense self) w st in
  final out = st
  /\ Forall (fun e => is_request e = false) (events out)
  /\ exists message, events out = [Alerted (js "Error") message []].
Proof.
  intros Hinvalid out.
  assert (exists message,
             out = mkOutcome (Normal tt) st [Alerted (js "Error") message []])
    as (message & ->).
  { unfold out.
    destruct (decide (amount self = [])) as [Ha|Ha];
      [eexists; apply run_addExpense_empty; auto|].
    destruct (decide (description self = [])) as [Hd|Hd];
      [eexists; apply run_addExpense_empty; auto|].
    destruct Hinvalid as [?|[?|Hnan]]; try contradiction.
    eexists. now apply run_addExpense_not_a_number. }
  simpl. split; [reflexivity|]. split; [repeat constructor | now exists message].
Qed.

Lemma addExpense_rejects_invalid_input_witness :
  (let self := Scenario.screen (js "All") (js "20") (js "") in
   final (run (addExpense self) Scenario.up self) = self)
  /\ (let self := Scenario.screen (js "All") (js "") (js "Coffee") in
      final (run (addExpense self) Scenario.up self) = self)
  /\ (let self := Scenario.screen (js "All") (js "twenty") (js "Coffee") in
      Forall (fun e => is_request e = false)
             (events (run (addExpense self) Scenario.up self))).
Proof.
  split; [|split]; intros self.
  - apply (addExpense_rejects_invalid_input self Scenario.up self).
    right. left. reflexivity.
  - apply (addExpense_rejects_invalid_input self Scenario.up self).
    left. reflexivity.
  - apply (addExpense_rejects_invalid_input self Scenario.up self).
    right. right. vm_compute. reflexivity.
Defined.

(** The request of a submit, written out. *)
Lemma create_request_body (self : State) (timestamp : jsstring) :
  create_request self timestamp
  = POST_expenses
      (JObject
         [ (js "amount", stringify_number (parseFloat (amount self)));
           (js "description", JString (trim (description self)));
           (js "category", JString (category self));
           (js "date", JString timestamp) ]).
Proof. reflexivity. Qed.

(** A finite amount other than zero is written as itself. *)
Lemma stringify_number_finite (s : bool) (m : positive) (e : Z) :
  stringify_number (S754_finite s m e) = JNumber (S754_finite s m e).
Proof. reflexivity. Qed.

(** The outcome of a submit that passes validation and whose request is
    answered with a 2xx status and a record. *)
Lemma run_addExpense_created
    (self : State) (w : World) (st : State)
    (response : Response Expense.t) (savedExpense : Expense.t) :
  amount self <> [] -> description self <> [] ->
  isNaN (parseFloat (amount self)) = false ->
  server w (create_request self (clock w)) = Fulfilled response ->
  ok response = true ->
  body response = Json savedExpense ->
  run (addExpense self) w st
  = mkOutcome (Normal tt)
      {| expenses := savedExpense :: expenses st;
         amount := js "";
         description := js "";
         category := js "Food";
         showAddModal := false;
         selectedFilter := selectedFilter st;
         loading := false |}
      [Requested (create_request self (clock w))].
Proof.
  intros Ha Hd Hnum Hreply Hok Hbody.
  rewrite run_addExpense_valid by assumption. cbv zeta.
  rewrite Hreply. unfold create_request. simpl Reply.
  rewrite Hok, Hbody. reflexivity.
Qed.

(** C4. A submit that passes validation sends one request whose body has
    the members amount, description, category and date: the trimmed
    description, the selected category, the time of the submit, and the
    parsed amount as JSON writes it. When the answer is a 2xx status with
    a record, that record is put in front of the list, whose prior records
    follow unchanged ([st] is the state current when the answer arrives),
    the two text inputs are emptied and the dialog is closed. JSON writes a parsed amount that is not finite as null: the
    amount text "Infinity" passes validation and the body then carries
    null, not the parsed number. *)
Theorem addExpense_success
    (self : State) (w : World) (st : State)
    (response : Response Expense.t) (savedExpense : Expense.t) :
  amount self <> [] -> description self <> [] ->
  isNaN (parseFloat (amount self)) = false ->
  server w (create_request self (clock w)) = Fulfilled response ->
  ok response = true ->
  body response = Json savedExpense ->
  let out := run (addExpense self) w st in
  expenses (final out) = savedExpense :: expenses st
  /\ expenses (final out) !! 0%nat = Some savedExpense
  /\ length (expenses (final out)) = S (length (expenses st))
  /\ amount (final out) = [] /\ description (final out) = []
  /\ showAddModal (final out) = false
  /\ events out
     = [Requested
          (POST_expenses
             (JObject
                [ (js "amount", stringify_number (parseFloat (amount self)));
                  (js "description", JString (trim (description self)));
                  (js "category", JString (category self));
                  (js "date", JString (clock w)) ]))]
  /\ (isFinite (parseFloat (amount self)) = false ->
      stringify_number (parseFloat (amount self)) = JNull)
  /\ isNaN (parseFloat (js "Infinity")) = false
  /\ isFinite (parseFloat (js "Infinity")) = false.
Proof.
  intros Ha Hd Hnum Hreply Hok Hbody out. unfold out.
  rewrite (run_addExpense_created self w st response savedExpense) by assumption.
  rewrite create_request_body. simpl.
  repeat (split; [reflexivity|]).
  split; [|split; vm_compute; reflexivity].
  destruct (parseFloat (amount self)); simpl; congruence.
Qed.

(** The scenario of the specification: amount "20", description "Coffee";
    and the same submit with the amount text "Infinity". *)
Lemma addExpense_success_witness :
  (let self := Scenario.screen (js "All") (js "20") (js "Coffee") in
   let out := run (addExpense self) Scenario.up self in
   expenses (final out) = [Scenario.coffee; Scenario.lunch; Scenario.power]
   /\ events out
      = [Requested
           (POST_expenses
              (JObject
                 [ (js "amount", JNumber (of_Z 20 0));
                   (js "description", JString (js "Coffee"));
                   (js "category", JString (js "Bills"));
                   (js "date", JString (js "2024-03-04T09:15:00.000Z")) ]))])
  /\ (let self := Scenario.screen (js "All") (js "Infinity") (js "Gold") in
      events (run (addExpense self) Scenario.up self)
      = [Requested
           (POST_expenses
              (JObject
                 [ (js "amount", JNull);
                   (js "description", JString (js "Gold"));
                   (js "category", JString (js "Bills"));
                   (js "date", JString (js "2024-03-04T09:15:00.000Z")) ]))]).
Proof.
  split; intros self.
  - pose proof (addExpense_success self Scenario.up self
                  (mkResponse 201 (Json Scenario.coffee)) Scenario.coffee) as H.
    settle H. destruct H as (Hlist & _ & _ & _ & _ & _ & Hsent & _).
    intros out. unfold out. rewrite Hlist, Hsent. split; vm_compute; reflexivity.
  - pose proof (addExpense_success self Scenario.up self
                  (mkResponse 201 (Json Scenario.coffee)) Scenario.coffee) as H.
    settle H. destruct H as (_ & _ & _ & _ & _ & _ & Hsent & _).
    rewrite Hsent. vm_compute. reflexivity.
Defined.

(** C8. A successful submit also puts the pending category back to
    "Food", whatever it was in the render that submitted and in the
    state current when the answer arrives. *)
Theorem addExpense_resets_category
    (self : State) (w : World) (st : State)
    (response : Response Expense.t) (savedExpense : Expense.t) :
  amount self <> [] -> description self <> [] ->
  isNaN (parseFloat (amount self)) = false ->
  server w (create_request self (clock w)) = Fulfilled response ->
  ok response = true ->
  body response = Json savedExpense ->
  category (final (run (addExpense self) w st)) = js "Food".
Proof.
  intros Ha Hd Hnum Hreply Hok Hbody.
  now rewrite (run_addExpense_created self w st response savedExpense).
Qed.

Lemma addExpense_resets_category_witness :
  let self := Scenario.screen (js "All") (js "20") (js "Coffee") in
  category self = js "Bills"
  /\ category (final (run (addExpense self) Scenario.up self)) = js "Food".
Proof.
  intros self. split; [reflexivity|].
  pose proof (addExpense_resets_category self Scenario.up self
                (mkResponse 201 (Json Scenario.coffee)) Scenario.coffee) as H.
  settle H. exact H.
Defined.

(** ** Remove *)

Lemma strict_not_equal_true (a b : ExpenseId) :
  Is_true (strict_not_equal a b) <-> strict_equal a b = false.
Proof.
  unfold strict_not_equal. destruct (strict_equal a b); simpl; intuition discriminate.
Qed.

(** The list after a delete request that was answered with a 2xx status. *)
Lemma deleteExpenseAPI_deleted (w : World) (st : State) (id : ExpenseId) :
  call_failed (server w (DELETE_expense id)) = false ->
  expenses (final (run (deleteExpenseAPI id) w st))
  = filter (fun expense => strict_not_equal (Expense.id expense) id) (expenses st).
Proof.
  intros Hok. rewrite run_deleteExpenseAPI.
  destruct (server w (DELETE_expense id)) as [response|message];
    simpl in Hok; [|discriminate].
  apply negb_false_iff in Hok. simpl Reply in *. now rewrite Hok.
Qed.

Lemma deleteExpenseAPI_failed (w : World) (st : State) (id : ExpenseId) :
  call_failed (server w (DELETE_expense id)) = true ->
  expenses (final (run (deleteExpenseAPI id) w st)) = expenses st.
Proof.
  intros Hfail. rewrite run_deleteExpenseAPI.
  destruct (server w (DELETE_expense id)) as [response|message];
    simpl in Hfail; [|reflexivity].
  apply negb_true_iff in Hfail. simpl Reply in *. now rewrite Hfail.
Qed.

(** C5. After a successful delete of [id] the list is the prior list
    without the records whose id equals [id]: it is a subsequence of the
    prior list, a prior record is in it exactly when its id differs from
    [id], and no other record is gone, in that every in-order selection of
    prior records with other ids lies within it. After a failed delete
    the list is the prior list. *)
Theorem deleteExpenseAPI_removes (w : World) (st : State) (id : ExpenseId) :
  let prior := expenses st in
  let rest := expenses (final (run (deleteExpenseAPI id) w st)) in
  (call_failed (server w (DELETE_expense id)) = false ->
   rest `sublist_of` prior
   /\ (forall expense,
         expense ∈ rest
         <-> expense ∈ prior /\ strict_equal (Expense.id expense) id = false)
   /\ (forall r,
         r `sublist_of` prior ->
         Forall (fun expense => strict_equal (Expense.id expense) id = false) r ->
         r `sublist_of` rest))
  /\ (call_failed (server w (DELETE_expense id)) = true -> rest = prior).
Proof.
  intros prior rest. split.
  - intros Hok. unfold rest. rewrite deleteExpenseAPI_deleted by assumption.
    split; [apply sublist_filter|]. split.
    + intros expense. rewrite list_elem_of_filter, strict_not_equal_true. tauto.
    + intros r Hsub Hall. apply filter_greatest; [assumption|].
      eapply Forall_impl; [exact Hall|].
      intros expense. apply strict_not_equal_true.
  - apply deleteExpenseAPI_failed.
Qed.

Lemma deleteExpenseAPI_removes_witness :
  (let st := Scenario.screen (js "All") [] [] in
   [Scenario.power]
     `sublist_of` expenses (final (run (deleteExpenseAPI (IdNumber (of_Z 1 0)))
                                       Scenario.up st)))
  /\ (let st := Scenario.screen (js "All") [] [] in
      expenses (final (run (deleteExpenseAPI (IdNumber (of_Z 1 0)))
                           Scenario.offline st))
      = [Scenario.lunch; Scenario.power]).
Proof.
  split; intros st.
  - destruct (deleteExpenseAPI_removes Scenario.up st (IdNumber (of_Z 1 0)))
      as (Hdeleted & _).
    assert (call_failed (server Scenario.up (DELETE_expense (IdNumber (of_Z 1 0))))
            = false) as Hok by reflexivity.
    destruct (Hdeleted Hok) as (_ & _ & Hgreatest).
    apply Hgreatest.
    + apply sublist_cons, sublist_skip, sublist_nil_l.
    + repeat constructor.
  - destruct (deleteExpenseAPI_removes Scenario.offline st (IdNumber (of_Z 1 0)))
      as (_ & Hfailed).
    apply Hfailed. reflexivity.
Defined.

(** Where ids are unique, only the record at hand carries its id. *)
Lemma unique_ids_others (l1 l2 : list Expense.t) (e : Expense.t) (id : ExpenseId) :
  unique_ids (l1 ++ e :: l2) ->
  strict_equal (Expense.id e) id = true ->
  Forall (fun a => strict_equal (Expense.id a) id = false) (l1 ++ l2).
Proof.
  intros Huniq He. apply Forall_lookup. intros i a Hi.
  destruct (strict_equal (Expense.id a) id) eqn:Ha; [exfalso|reflexivity].
  pose proof (strict_equal_join _ _ _ Ha He) as Hae.
  assert ((l1 ++ e :: l2) !! length l1 = Some e) as Hmid
    by (now rewrite list_lookup_middle).
  destruct (decide (i < length l1)%nat) as [Hlt|Hge].
  - rewrite lookup_app_l in Hi by assumption.
    assert ((l1 ++ e :: l2) !! i = Some a) as Hi'
      by (now rewrite lookup_app_l by assumption).
    specialize (Huniq _ _ _ _ Hi' Hmid Hae). lia.
  - rewrite lookup_app_r in Hi by lia.
    assert ((l1 ++ e :: l2) !! S i = Some a) as Hi'.
    { rewrite lookup_app_r by lia.
      replace (S i - length l1)%nat with (S (i - length l1)) by lia.
      exact Hi. }
    specialize (Huniq _ _ _ _ Hi' Hmid Hae). lia.
Qed.

(** C9. A successful delete of [id] removes every record whose id
    strictly equals [id]: none is left, and the list shrinks by the number
    of such records, which is two when two records share the id. Where
    ids are unique and a record has the id, exactly that record is
    removed. *)
Theorem deleteExpenseAPI_removes_every_match
    (w : World) (st : State) (id : ExpenseId) :
  call_failed (server w (DELETE_expense id)) = false ->
  let prior := expenses st in
  let rest := expenses (final (run (deleteExpenseAPI id) w st)) in
  Forall (fun expense => strict_equal (Expense.id expense) id = false) rest
  /\ (length rest
      + length (filter (fun expense => strict_equal (Expense.id expense) id = true) prior)
      = length prior)%nat
  /\ (forall l1 e l2,
        prior = l1 ++ e :: l2 ->
        unique_ids prior ->
        strict_equal (Expense.id e) id = true ->
        rest = l1 ++ l2).
Proof.
  intros Hok prior rest. unfold rest.
  rewrite deleteExpenseAPI_deleted by assumption. fold prior.
  split; [|split].
  - apply Forall_forall. intros expense Hin.
    apply list_elem_of_filter in Hin. now apply strict_not_equal_true.
  - rewrite <- (filter_split_length
                  (fun expense => Is_true (strict_not_equal (Expense.id expense) id))
                  prior).
    f_equal. f_equal. apply list_filter_iff. intros expense.
    unfold strict_not_equal.
    destruct (strict_equal (Expense.id expense) id); simpl; intuition discriminate.
  - intros l1 e l2 Hprior Huniq He. rewrite Hprior in *.
    pose proof (unique_ids_others l1 l2 e id Huniq He) as Hothers.
    apply Forall_app in Hothers as [H1 H2].
    rewrite filter_app, filter_cons_False
      by (rewrite strict_not_equal_true; congruence).
    rewrite !filter_all; [reflexivity| |];
      (eapply Forall_impl; [eassumption|]; intros a; apply strict_not_equal_true).
Qed.

Lemma unique_ids_scenario : unique_ids [Scenario.lunch; Scenario.power].
Proof.
  intros i j a b Hi Hj Heq.
  destruct i as [|[|i]], j as [|[|j]]; simpl in Hi, Hj;
    try discriminate; try reflexivity;
    injection Hi as <-; injection Hj as <-; vm_compute in Heq; discriminate.
Qed.

(** Deleting id 1 where [lunch] and [snack] both carry it removes both;
    where only [lunch] carries it, only [lunch] goes. *)
Lemma deleteExpenseAPI_removes_every_match_witness :
  length (expenses (final (run (deleteExpenseAPI (IdNumber (of_Z 1 0)))
                               Scenario.up Scenario.crowded))) = 1%nat
  /\ expenses (final (run (deleteExpenseAPI (IdNumber (of_Z 1 0)))
                          Scenario.up (Scenario.screen (js "All") [] [])))
     = [Scenario.power].
Proof.
  split.
  - pose proof (deleteExpenseAPI_removes_every_match
                  Scenario.up Scenario.crowded (IdNumber (of_Z 1 0))) as H.
    settle H. destruct H as (_ & Hlength & _).
    change (length (expenses Scenario.crowded)) with 3%nat in Hlength.
    change (length (filter _ (expenses Scenario.crowded))) with 2%nat in Hlength.
    lia.
  - pose proof (deleteExpenseAPI_removes_every_match
                  Scenario.up (Scenario.screen (js "All") [] [])
                  (IdNumber (of_Z 1 0))) as H.
    settle H. destruct H as (_ & _ & Hone).
    apply (Hone [] Scenario.lunch [Scenario.power]).
    + reflexivity.
    + apply unique_ids_scenario.
    + vm_compute. reflexivity.
Defined.

(** ** Failure leaves the state alone *)

Lemma untouched_gave_up (st : State) (r : Request) (message : jsstring) :
  untouched st (final (gave_up st r message)).
Proof. repeat split. Qed.

Lemma untouched_refl (st : State) : untouched st st.
Proof. repeat split. Qed.

(** Either an operation left the state as it was, the in-flight flag
    apart, or one of the requests it made succeeded. *)
Lemma operation_outcome (op : Operation) (w : World) (st : State) :
  let out := run (handler op) w st in
  untouched st (final out)
  \/ exists r, Requested r ∈ events out /\ call_failed (server w r) = false.
Proof.
  assert (Hdelete : forall id,
             untouched st (final (run (deleteExpenseAPI id) w st))
             \/ exists r, Requested r ∈ events (run (deleteExpenseAPI id) w st)
                          /\ call_failed (server w r) = false).
  { intros id. rewrite run_deleteExpenseAPI.
    destruct (server w (DELETE_expense id)) as [response|message] eqn:Hreply;
      [|left; apply untouched_gave_up].
    destruct (ok _) eqn:Hok; [|left; apply untouched_gave_up].
    right. exists (DELETE_expense id). split; [apply list_elem_of_here|].
    rewrite Hreply. simpl. simpl Reply in *. now rewrite Hok. }
  destruct op as [|self|id]; simpl handler; intros out; unfold out.
  - rewrite run_fetchExpenses.
    destruct (server w GET_expenses) as [response|message] eqn:Hreply;
      [|left; apply untouched_gave_up].
    destruct (ok _) eqn:Hok; [|left; apply untouched_gave_up].
    destruct (body _); [|left; apply untouched_gave_up].
    right. exists GET_expenses. split; [apply list_elem_of_here|].
    rewrite Hreply. simpl. simpl Reply in *. now rewrite Hok.
  - destruct (decide (amount self = [])) as [Ha|Ha];
      [rewrite run_addExpense_empty by auto; left; apply untouched_refl|].
    destruct (decide (description self = [])) as [Hd|Hd];
      [rewrite run_addExpense_empty by auto; left; apply untouched_refl|].
    destruct (isNaN (parseFloat (amount self))) eqn:Hnum;
      [rewrite run_addExpense_not_a_number by assumption;
       left; apply untouched_refl|].
    rewrite run_addExpense_valid by assumption. cbv zeta.
    destruct (server w (create_request self (clock w)))
      as [response|message] eqn:Hreply; [|left; apply untouched_gave_up].
    destruct (ok _) eqn:Hok; [|left; apply untouched_gave_up].
    destruct (body _); [|left; apply untouched_gave_up].
    right. exists (create_request self (clock w)). split; [apply list_elem_of_here|].
    rewrite Hreply. simpl. unfold create_request in *. simpl Reply in *.
    now rewrite Hok.
  - rewrite run_deleteExpense.
    destruct (press w) as [[|[|n]]|]; simpl; try (left; apply untouched_refl).
    destruct (Hdelete id) as [Hsame|(r & Hin & Hr)]; [now left|].
    right. exists r. split; [now apply list_elem_of_further | assumption].
Qed.

(** C6. Load, submit and remove are all-or-nothing: when every remote
    call the operation made failed, by a network error or a status
    outside 2xx, the list, the pending inputs, the dialog flag and the
    filter are as they were before it began; and when any of them
    changed, a call the operation made had succeeded. *)
Theorem failed_operation_changes_nothing (op : Operation) (w : World) (st : State) :
  let out := run (handler op) w st in
  ((forall r, Requested r ∈ events out -> call_failed (server w r) = true) ->
   untouched st (final out))
  /\ (~ untouched st (final out) ->
      exists r, Requested r ∈ events out /\ call_failed (server w r) = false).
Proof.
  intros out.
  destruct (operation_outcome op w st) as [Hsame|(r & Hin & Hr)].
  - split; [intros _; exact Hsame | intros Hchanged; contradiction].
  - split; [|intros _; now exists r].
    intros Hfailed. specialize (Hfailed r Hin). congruence.
Qed.

Lemma failed_operation_changes_nothing_witness :
  let st := Scenario.screen (js "Food") (js "20") (js "Coffee") in
  untouched st (final (run (handler Load) Scenario.offline st))
  /\ untouched st (final (run (handler (Submit st)) Scenario.failing st))
  /\ untouched st (final (run (handler (Remove (IdNumber (of_Z 1 0))))
                              Scenario.failing st)).
Proof.
  intros st.
  assert (Hoffline : forall r, call_failed (server Scenario.offline r) = true)
    by (intros []; reflexivity).
  assert (Hfailing : forall r, call_failed (server Scenario.failing r) = true)
    by (intros []; reflexivity).
  split; [|split].
  - apply (failed_operation_changes_nothing Load Scenario.offline st).
    intros r _. apply Hoffline.
  - apply (failed_operation_changes_nothing (Submit st) Scenario.failing st).
    intros r _. apply Hfailing.
  - apply (failed_operation_changes_nothing
             (Remove (IdNumber (of_Z 1 0))) Scenario.failing st).
    intros r _. apply Hfailing.
Defined.

(** * More of the component *)

(** [evaluate H] discharges the premises of [H] that are closed: the
    equations by evaluation, the rest by a clash of constructors. *)
Ltac evaluate H :=
  repeat match type of H with
         | ?P -> _ =>
             let HP := fresh in
             assert (HP : P)
               by (lazymatch goal with
                   | |- _ = _ => vm_compute; reflexivity
                   | |- _ <> _ => discriminate
                   end);
             specialize (H HP); clear HP
         end.

(** ** White space around the inputs *)

Lemma head_rev {A} (l : list A) : head (rev l) = last l.
Proof.
  induction l as [|x l _] using rev_ind; [reflexivity|].
  now rewrite rev_unit, last_snoc.
Qed.

Lemma last_rev {A} (l : list A) : last (rev l) = head l.
Proof. destruct l as [|x l]; [reflexivity|]. simpl. apply last_snoc. Qed.

Lemma trimStart_blank (s : jsstring) :
  Forall (fun c => is_trimmable c = true) s -> trimStart s = [].
Proof. induction 1 as [|c s Hc _ IH]; simpl; [reflexivity | now rewrite Hc]. Qed.

Lemma trimStart_app_blank (ws s : jsstring) :
  Forall (fun c => is_trimmable c = true) ws -> trimStart (ws ++ s) = trimStart s.
Proof. induction 1 as [|c ws Hc _ IH]; simpl; [reflexivity | now rewrite Hc]. Qed.

(** [trimStart] drops a run of white space and nothing else. *)
Lemma trimStart_split (s : jsstring) :
  exists ws, s = ws ++ trimStart s /\ Forall (fun c => is_trimmable c = true) ws.
Proof.
  induction s as [|c s (ws & Hs & Hws)]; [now exists []|].
  simpl. destruct (is_trimmable c) eqn:Hc.
  - exists (c :: ws). split; [simpl; now f_equal | now constructor].
  - now exists [].
Qed.

Lemma trimStart_head (s : jsstring) (c : N) :
  head (trimStart s) = Some c -> is_trimmable c = false.
Proof.
  induction s as [|d s IH]; simpl; [discriminate|].
  destruct (is_trimmable d) eqn:Hd; [exact IH|].
  simpl. now intros [= <-].
Qed.

Lemma trimStart_fixed (s : jsstring) :
  (forall c, head s = Some c -> is_trimmable c = false) -> trimStart s = s.
Proof.
  destruct s as [|c s]; [reflexivity|]. intros Hhead. simpl.
  now rewrite (Hhead c eq_refl).
Qed.

Lemma trim_blank (s : jsstring) :
  Forall (fun c => is_trimmable c = true) s -> trim s = [].
Proof. intros Hs. unfold trim, trimEnd. now rewrite (trimStart_blank s Hs). Qed.

(** What [trim] returns has no white space at either end. *)
Lemma trim_tidy (s : jsstring) : tidy (trim s).
Proof.
  unfold tidy, trim, trimEnd. split; intros c Hc.
  - rewrite head_rev in Hc.
    destruct (trimStart_split (rev (trimStart s))) as (ws & Hsplit & _).
    assert (last (rev (trimStart s)) = Some c) as Hlast.
    { rewrite Hsplit, last_app, Hc. reflexivity. }
    rewrite last_rev in Hlast. now apply trimStart_head in Hlast.
  - rewrite last_rev in Hc. now apply trimStart_head in Hc.
Qed.

Lemma trim_fixed (s : jsstring) : tidy s -> trim s = s.
Proof.
  intros [Hhead Hlast]. unfold trim, trimEnd.
  rewrite (trimStart_fixed s Hhead).
  rewrite trimStart_fixed; [apply rev_involutive|].
  intros c. rewrite head_rev. apply Hlast.
Qed.

Lemma trim_idempotent (s : jsstring) : trim (trim s) = trim s.
Proof. apply trim_fixed, trim_tidy. Qed.

(** ** Which amounts pass validation *)

Lemma parseFloat_blank (s : jsstring) :
  Forall (fun c => is_trimmable c = true) s -> parseFloat s = NaN.
Proof. intros Hs. unfold parseFloat. now rewrite (trimStart_blank s Hs). Qed.

Lemma digit_not_trimmable (d : N) : is_digit d = true -> is_trimmable d = false.
Proof.
  unfold is_digit, is_trimmable, is_white_space, is_line_terminator.
  rewrite andb_true_iff, !N.leb_le. intros [Hlo Hhi].
  repeat match goal with
         | |- context [N.eqb d ?c] =>
             replace (N.eqb d c) with false by (symmetry; apply N.eqb_neq; lia)
         end.
  replace (N.leb 0x2000 d) with false by (symmetry; apply N.leb_gt; lia).
  reflexivity.
Qed.

Lemma shr_1_nonneg (mrs : shr_record) :
  (0 <= shr_m mrs)%Z -> (0 <= shr_m (shr_1 mrs))%Z.
Proof.
  destruct mrs as [m r s]. simpl.
  destruct m as [|[p|p|]|p]; simpl; lia.
Qed.

Lemma iter_pos_nonneg (n : positive) (mrs : shr_record) :
  (0 <= shr_m mrs)%Z -> (0 <= shr_m (SpecFloat.iter_pos shr_1 n mrs))%Z.
Proof.
  revert mrs. induction n as [n IH|n IH|]; intros mrs Hm; simpl.
  - apply IH, IH, shr_1_nonneg, Hm.
  - apply IH, IH, Hm.
  - apply shr_1_nonneg, Hm.
Qed.

Lemma shr_fexp_nonneg (m e : Z) (l : location) :
  (0 <= m)%Z -> (0 <= shr_m (fst (shr_fexp prec emax m e l)))%Z.
Proof.
  intros Hm. unfold shr_fexp, shr.
  assert (0 <= shr_m (shr_record_of_loc m l))%Z as H0
    by (destruct l as [|[]]; exact Hm).
  destruct (fexp prec emax (Zdigits2 m + e) - e)%Z; simpl; auto.
  now apply iter_pos_nonneg.
Qed.

(** Rounding a mantissa that is not negative never gives NaN. *)
Lemma binary_round_aux_number (sx : bool) (m e : Z) (l : location) :
  (0 <= m)%Z -> isNaN (binary_round_aux prec emax sx m e l) = false.
Proof.
  intros Hm. unfold binary_round_aux.
  pose proof (shr_fexp_nonneg m e l Hm) as H1.
  destruct (shr_fexp prec emax m e l) as [mrs' e'] eqn:E1. simpl in H1.
  assert (0 <= round_nearest_even (shr_m mrs') (loc_of_shr_record mrs'))%Z as H2.
  { unfold round_nearest_even.
    destruct (loc_of_shr_record mrs') as [|[]]; try lia.
    destruct (Z.even (shr_m mrs')); lia. }
  pose proof (shr_fexp_nonneg _ e' loc_Exact H2) as H3.
  destruct (shr_fexp prec emax _ e' loc_Exact) as [mrs'' e''] eqn:E2.
  simpl in H3.
  destruct (shr_m mrs'') as [|p|p]; [reflexivity | | lia].
  now destruct (e'' <=? emax - prec)%Z.
Qed.

Lemma decimal_value_number (negative : bool) (digits : N) (exponent : Z) :
  isNaN (decimal_value negative digits exponent) = false.
Proof.
  unfold decimal_value. destruct digits as [|p]; [reflexivity|].
  destruct exponent as [|k|k].
  - unfold binary_round. destruct (shl_align _ _ _) as [mz ez].
    now apply binary_round_aux_number.
  - unfold binary_round. destruct (shl_align _ _ _) as [mz ez].
    now apply binary_round_aux_number.
  - unfold SFdiv, SFdiv_core_binary.
    match goal with
    | |- context [Z.div_eucl ?a ?b] =>
        pose proof (Z_div_mod a b ltac:(lia)) as Hdiv;
        assert (0 <= a)%Z as Ha;
        [|destruct (Z.div_eucl a b) as [q r] eqn:Hqr]
    end.
    { match goal with
      | |- (0 <= match ?s with _ => _ end)%Z =>
          destruct s; try lia; apply Z.shiftl_nonneg; lia
      end. }
    apply binary_round_aux_number.
    destruct Hdiv as [Hq Hr]. nia.
Qed.

(** [parseFloat] gives NaN exactly when, after leading white space and
    one optional sign, no numeric literal starts the text. *)
Lemma parseFloat_digit (ws : jsstring) (d : N) (rest : jsstring) :
  Forall (fun c => is_trimmable c = true) ws ->
  is_digit d = true ->
  isNaN (parseFloat (ws ++ d :: rest)) = false.
Proof.
  intros Hws Hd. unfold parseFloat. rewrite trimStart_app_blank by assumption.
  simpl trimStart. rewrite (digit_not_trimmable d Hd).
  assert (48 <= d <= 57) as Hrange
    by (unfold is_digit in Hd; rewrite andb_true_iff, !N.leb_le in Hd; lia).
  replace (d =? 0x2D) with false by (symmetry; apply N.eqb_neq; lia).
  replace (d =? 0x2B) with false by (symmetry; apply N.eqb_neq; lia).
  unfold unsigned_literal.
  assert (starts_with (js "Infinity") (d :: rest) = false) as ->.
  { change (js "Infinity") with (0x49 :: js "nfinity"). cbn [starts_with].
    replace (0x49 =? d) with false by (symmetry; apply N.eqb_neq; lia).
    reflexivity. }
  simpl take_digits. rewrite Hd.
  destruct (take_digits rest) as [ds after_int].
  destruct after_int as [|c after]; [apply decimal_value_number|].
  destruct (N.eq_dec c 0x2E) as [->|Hc].
  - destruct (take_digits after) as [frac after_frac].
    apply decimal_value_number.
  - destruct c as [|p]; [apply decimal_value_number|].
    do 6 (destruct p as [p|p|]; try apply decimal_value_number).
    contradiction.
Qed.

(** A submit that passes validation sends its request first; nothing it
    does afterwards is a request. *)
Lemma addExpense_sends (self : State) (w : World) (st : State) :
  amount self <> [] -> description self <> [] ->
  isNaN (parseFloat (amount self)) = false ->
  exists rest,
    events (run (addExpense self) w st)
    = Requested (create_request self (clock w)) :: rest
    /\ Forall (fun e => is_request e = false) rest.
Proof.
  intros Ha Hd Hnum. rewrite run_addExpense_valid by assumption. cbv zeta.
  destruct (server w _) as [response|message];
    [|eexists; split; [reflexivity | repeat constructor]].
  destruct (ok _); [|eexists; split; [reflexivity | repeat constructor]].
  destruct (body _); eexists; (split; [reflexivity | repeat constructor]).
Qed.

(** X1. An amount text that starts, after optional white space, with a
    digit passes validation whatever follows the digits: the request is
    sent, and its amount is what [parseFloat] reads off the front of the
    text. *)
Theorem addExpense_accepts_numeric_prefix
    (self : State) (w : World) (st : State)
    (ws : jsstring) (d : N) (rest : jsstring) :
  amount self = ws ++ d :: rest ->
  Forall (fun c => is_trimmable c = true) ws ->
  is_digit d = true ->
  description self <> [] ->
  head (events (run (addExpense self) w st))
  = Some (Requested
            (POST_expenses
               (JObject
                  [ (js "amount", stringify_number (parseFloat (amount self)));
                    (js "description", JString (trim (description self)));
                    (js "category", JString (category self));
                    (js "date", JString (clock w)) ]))).
Proof.
  intros Hamount Hws Hd Hdesc.
  destruct (addExpense_sends self w st) as (tail & -> & _).
  - rewrite Hamount. now destruct ws.
  - assumption.
  - rewrite Hamount. now apply parseFloat_digit.
  - reflexivity.
Qed.

(** The amount text "12abc" is sent as 12. *)
Lemma addExpense_accepts_numeric_prefix_witness :
  let self := Scenario.screen (js "All") (js " 12abc") (js "Coffee") in
  head (events (run (addExpense self) Scenario.failing self))
  = Some (Requested
            (POST_expenses
               (JObject
                  [ (js "amount", JNumber (of_Z 12 0));
                    (js "description", JString (js "Coffee"));
                    (js "category", JString (js "Bills"));
                    (js "date", JString (js "2024-03-04T09:15:00.000Z")) ]))).
Proof.
  intros self.
  rewrite (addExpense_accepts_numeric_prefix self Scenario.failing self
             (js " ") 0x31 (js "2abc")).
  - vm_compute. reflexivity.
  - reflexivity.
  - repeat constructor.
  - reflexivity.
  - discriminate.
Defined.

(** X2. A description made only of white space is not empty, so it
    passes validation; it is trimmed afterwards, and the request carries
    the empty description. *)
Theorem addExpense_blank_description
    (self : State) (w : World) (st : State) :
  amount self <> [] ->
  isNaN (parseFloat (amount self)) = false ->
  description self <> [] ->
  Forall (fun c => is_trimmable c = true) (description self) ->
  head (events (run (addExpense self) w st))
  = Some (Requested
            (POST_expenses
               (JObject
                  [ (js "amount", stringify_number (parseFloat (amount self)));
                    (js "description", JString []);
                    (js "category", JString (category self));
                    (js "date", JString (clock w)) ]))).
Proof.
  intros Ha Hnum Hd Hblank.
  destruct (addExpense_sends self w st Ha Hd Hnum) as (tail & -> & _).
  rewrite create_request_body, (trim_blank _ Hblank). reflexivity.
Qed.

Lemma addExpense_blank_description_witness :
  let self := Scenario.screen (js "All") (js "20") (js "   ") in
  head (events (run (addExpense self) Scenario.up self))
  = Some (Requested
            (POST_expenses
               (JObject
                  [ (js "amount", JNumber (of_Z 20 0));
                    (js "description", JString []);
                    (js "category", JString (js "Bills"));
                    (js "date", JString (js "2024-03-04T09:15:00.000Z")) ]))).
Proof.
  intros self.
  rewrite (addExpense_blank_description self Scenario.up self).
  - vm_compute. reflexivity.
  - discriminate.
  - vm_compute. reflexivity.
  - discriminate.
  - repeat constructor.
Defined.

(** X3. An amount made only of white space is not empty either: it
    passes the first check and fails the second, so the alert is the one
    about a valid amount; no request is sent and the state stays. *)
Theorem addExpense_blank_amount (self : State) (w : World) (st : State) :
  amount self <> [] ->
  Forall (fun c => is_trimmable c = true) (amount self) ->
  description self <> [] ->
  run (addExpense self) w st
  = mkOutcome (Normal tt) st
      [Alerted (js "Error") (js "Please enter a valid amount") []].
Proof.
  intros Ha Hblank Hd. apply run_addExpense_not_a_number; try assumption.
  now rewrite parseFloat_blank.
Qed.

Lemma addExpense_blank_amount_witness :
  let self := Scenario.screen (js "All") (js "  ") (js "Coffee") in
  events (run (addExpense self) Scenario.up self)
  = [Alerted (js "Error") (js "Please enter a valid amount") []].
Proof.
  intros self. rewrite (addExpense_blank_amount self Scenario.up self).
  - reflexivity.
  - discriminate.
  - repeat constructor.
  - discriminate.
Defined.

(** ** Load *)

(** X4. A successful load replaces the list by what the service sent,
    whatever the list held before; the inputs, the dialog flag and the
    filter stay, the in-flight flag is cleared, and the one request is all
    the world sees. *)
Theorem fetchExpenses_replaces
    (w : World) (st : State)
    (response : Response (list Expense.t)) (data : list Expense.t) :
  server w GET_expenses = Fulfilled response ->
  ok response = true ->
  body response = Json data ->
  let out := run fetchExpenses w st in
  final out
  = {| expenses := data; amount := amount st; description := description st;
       category := category st; showAddModal := showAddModal st;
       selectedFilter := selectedFilter st; loading := false |}
  /\ events out = [Requested GET_expenses].
Proof.
  intros Hreply Hok Hbody out. unfold out. rewrite run_fetchExpenses.
  rewrite Hreply. simpl Reply. rewrite Hok, Hbody. simpl.
  repeat split.
Qed.

Lemma fetchExpenses_replaces_witness :
  let st := Scenario.screen (js "Food") (js "20") (js "Coffee") in
  expenses (final (run fetchExpenses Scenario.up st)) = [Scenario.coffee].
Proof.
  intros st.
  pose proof (fetchExpenses_replaces Scenario.up st
                (mkResponse 200 (Json [Scenario.coffee])) [Scenario.coffee]) as H.
  evaluate H. destruct H as (Hfinal & _). now rewrite Hfinal.
Defined.

(** ** What every operation does *)

(** X5. Every operation ends normally, whatever the service answers:
    no error escapes a handler. It sends at most one request; when it
    sent none the state is exactly as before, and when it sent one the
    in-flight flag is cleared at the end. *)
Theorem operation_completes (op : Operation) (w : World) (st : State) :
  let out := run (handler op) w st in
  completion out = Normal tt
  /\ (length (filter (fun e => is_request e = true) (events out)) <= 1)%nat
  /\ (Forall (fun e => is_request e = false) (events out) -> final out = st)
  /\ (Exists (fun e => is_request e = true) (events out) ->
      loading (final out) = false).
Proof.
  assert (Hdelete : forall id,
             let out := run (deleteExpenseAPI id) w st in
             completion out = Normal tt
             /\ (exists rest, events out = Requested (DELETE_expense id) :: rest
                              /\ Forall (fun e => is_request e = false) rest)
             /\ loading (final out) = false).
  { intros id. cbv zeta. rewrite run_deleteExpenseAPI.
    destruct (server w (DELETE_expense id)) as [response|message];
      [destruct (ok _)|]; simpl;
      (split; [reflexivity|]; split; [|reflexivity]);
      eexists; (split; [reflexivity | repeat constructor]). }
  assert (Hshape : forall (out : Outcome unit) r rest,
             completion out = Normal tt ->
             events out = Requested r :: rest ->
             Forall (fun e => is_request e = false) rest ->
             loading (final out) = false ->
             completion out = Normal tt
             /\ (length (filter (fun e => is_request e = true) (events out)) <= 1)%nat
             /\ (Forall (fun e => is_request e = false) (events out) -> final out = st)
             /\ (Exists (fun e => is_request e = true) (events out) ->
                 loading (final out) = false)).
  { intros out r rest Hc He Hrest Hl. rewrite He.
    split; [assumption|]. split; [|split].
    - rewrite filter_cons_True by reflexivity.
      rewrite filter_none; [simpl; lia|].
      eapply Forall_impl; [exact Hrest|]. simpl. intros e ->. discriminate.
    - intros Hnone. inversion Hnone; subst. discriminate.
    - intros _. assumption. }
  assert (Hquiet : forall (out : Outcome unit) e,
             completion out = Normal tt -> final out = st ->
             events out = [e] -> is_request e = false ->
             completion out = Normal tt
             /\ (length (filter (fun e => is_request e = true) (events out)) <= 1)%nat
             /\ (Forall (fun e => is_request e = false) (events out) -> final out = st)
             /\ (Exists (fun e => is_request e = true) (events out) ->
                 loading (final out) = false)).
  { intros out e Hc Hf He Hreq. rewrite He.
    split; [assumption|]. split; [|split].
    - rewrite filter_cons_False by (rewrite Hreq; discriminate). simpl. lia.
    - intros _. assumption.
    - intros Hsome. apply Exists_cons in Hsome as [Hsome|Hsome];
        [congruence | inversion Hsome]. }
  destruct op as [|self|id]; simpl handler; cbv zeta.
  - rewrite run_fetchExpenses.
    destruct (server w GET_expenses) as [response|message];
      [destruct (ok _); [destruct (body _)|]|];
      (eapply Hshape; [reflexivity | reflexivity | repeat constructor | reflexivity]).
  - destruct (decide (amount self = [])) as [Ha|Ha];
      [rewrite run_addExpense_empty by auto; now eapply Hquiet|].
    destruct (decide (description self = [])) as [Hd|Hd];
      [rewrite run_addExpense_empty by auto; now eapply Hquiet|].
    destruct (isNaN (parseFloat (amount self))) eqn:Hnum;
      [rewrite run_addExpense_not_a_number by assumption; now eapply Hquiet|].
    rewrite run_addExpense_valid by assumption. cbv zeta.
    destruct (server w _) as [response|message];
      [destruct (ok _); [destruct (body _)|]|];
      (eapply Hshape; [reflexivity | reflexivity | repeat constructor | reflexivity]).
  - rewrite run_deleteExpense.
    destruct (press w) as [[|[|n]]|]; try (now eapply Hquiet).
    destruct (Hdelete id) as (Hc & (rest & He & Hrest) & Hl).
    unfold after. cbn [completion final events]. rewrite He.
    split; [assumption|]. split; [|split].
    + rewrite filter_cons_False by discriminate.
      rewrite filter_cons_True by reflexivity.
      rewrite filter_none; [simpl; lia|].
      eapply Forall_impl; [exact Hrest|]. simpl. intros e ->. discriminate.
    + intros Hnone. inversion Hnone as [|? ? _ Hnone']; subst.
      inversion Hnone'; subst. discriminate.
    + intros _. assumption.
Qed.

(** X6. A failed call is reported by exactly one alert titled "Error",
    after the request: the message is the handler's fixed text when the
    status is outside 2xx, and the text of the rejection when the request
    could not be made. *)
Theorem failed_call_alert (w : World) (st : State) :
  let fixed (text : jsstring) {T} (settled : Settled T) : jsstring :=
    match settled with Rejected message => message | Fulfilled _ => text end in
  (call_failed (server w GET_expenses) = true ->
   events (run fetchExpenses w st)
   = [Requested GET_expenses;
      Alerted (js "Error")
              (fixed (js "Failed to fetch expenses") (server w GET_expenses)) []])
  /\ (forall self,
        amount self <> [] -> description self <> [] ->
        isNaN (parseFloat (amount self)) = false ->
        let r := create_request self (clock w) in
        call_failed (server w r) = true ->
        events (run (addExpense self) w st)
        = [Requested r;
           Alerted (js "Error") (fixed (js "Failed to add expense") (server w r)) []])
  /\ (forall id,
        call_failed (server w (DELETE_expense id)) = true ->
        events (run (deleteExpenseAPI id) w st)
        = [Requested (DELETE_expense id);
           Alerted (js "Error")
                   (fixed (js "Failed to delete expense")
                          (server w (DELETE_expense id))) []]).
Proof.
  intros fixed. split; [|split].
  - intros Hfail. rewrite run_fetchExpenses.
    destruct (server w GET_expenses) as [response|message]; [|reflexivity].
    simpl in Hfail. apply negb_true_iff in Hfail. simpl Reply in *.
    now rewrite Hfail.
  - intros self Ha Hd Hnum r Hfail.
    rewrite run_addExpense_valid by assumption. cbv zeta. fold r.
    destruct (server w r) as [response|message]; [|reflexivity].
    simpl in Hfail. apply negb_true_iff in Hfail.
    unfold r, create_request in *. simpl Reply in *. now rewrite Hfail.
  - intros id Hfail. rewrite run_deleteExpenseAPI.
    destruct (server w (DELETE_expense id)) as [response|message]; [|reflexivity].
    simpl in Hfail. apply negb_true_iff in Hfail. simpl Reply in *.
    now rewrite Hfail.
Qed.

Lemma failed_call_alert_witness :
  let st := Scenario.screen (js "All") (js "20") (js "Coffee") in
  events (run fetchExpenses Scenario.offline st)
  = [Requested GET_expenses;
     Alerted (js "Error") (js "Network request failed") []]
  /\ events (run (deleteExpenseAPI (IdNumber (of_Z 1 0))) Scenario.failing st)
     = [Requested (DELETE_expense (IdNumber (of_Z 1 0)));
        Alerted (js "Error") (js "Failed to delete expense") []].
Proof.
  intros st. split.
  - destruct (failed_call_alert Scenario.offline st) as (Hload & _).
    rewrite Hload; reflexivity.
  - destruct (failed_call_alert Scenario.failing st) as (_ & _ & Hdelete).
    rewrite Hdelete; reflexivity.
Defined.

(** X7. A 2xx answer whose body is not JSON counts as a failure of a
    load or of a submit: the parse error is alerted and nothing but the
    in-flight flag changes, so the record a submit may have created on
    the service is not in the list. A delete never reads the body: any
    2xx answer removes the record. *)
Theorem unreadable_body (w : World) (st : State) (message : jsstring) :
  (forall response,
     server w GET_expenses = Fulfilled response ->
     ok response = true -> body response = NotJson message ->
     run fetchExpenses w st = gave_up st GET_expenses message)
  /\ (forall self response,
        amount self <> [] -> description self <> [] ->
        isNaN (parseFloat (amount self)) = false ->
        server w (create_request self (clock w)) = Fulfilled response ->
        ok response = true -> body response = NotJson message ->
        run (addExpense self) w st
        = gave_up st (create_request self (clock w)) message)
  /\ (forall id response,
        server w (DELETE_expense id) = Fulfilled response ->
        ok response = true -> body response = NotJson message ->
        expenses (final (run (deleteExpenseAPI id) w st))
        = filter (fun expense => strict_not_equal (Expense.id expense) id)
                 (expenses st)
        /\ events (run (deleteExpenseAPI id) w st) = [Requested (DELETE_expense id)]).
Proof.
  split; [|split].
  - intros response Hreply Hok Hbody. rewrite run_fetchExpenses, Hreply.
    simpl Reply in *. now rewrite Hok, Hbody.
  - intros self response Ha Hd Hnum Hreply Hok Hbody.
    rewrite run_addExpense_valid by assumption. cbv zeta. rewrite Hreply.
    unfold create_request in *. simpl Reply in *. now rewrite Hok, Hbody.
  - intros id response Hreply Hok _. rewrite run_deleteExpenseAPI, Hreply.
    simpl Reply in *. now rewrite Hok.
Qed.

Lemma unreadable_body_witness :
  let st := Scenario.screen (js "All") (js "20") (js "Coffee") in
  expenses (final (run (deleteExpenseAPI (IdNumber (of_Z 1 0))) Scenario.up st))
  = [Scenario.power].
Proof.
  intros st.
  destruct (unreadable_body Scenario.up st (js "Unexpected end of input"))
    as (_ & _ & Hdelete).
  pose proof (Hdelete (IdNumber (of_Z 1 0))
                (mkResponse 204 (NotJson (js "Unexpected end of input")))) as H.
  evaluate H. destruct H as (Hlist & _).
  rewrite Hlist. vm_compute. reflexivity.
Defined.

(** ** The delete prompt *)

(** X8. Unless the user presses Delete, the prompt is all that happens:
    on Cancel, on a dismissal, no request is sent and the state, the
    in-flight flag included, is as before. On Delete the prompt is
    followed by exactly what [deleteExpenseAPI] does. *)
Theorem deleteExpense_prompt (w : World) (st : State) (id : ExpenseId) :
  let prompt :=
    Alerted (js "Delete Expense") (js "Are you sure you want to delete this expense?")
            [js "Cancel"; js "Delete"] in
  (press w <> Some 1%nat ->
   run (deleteExpense id) w st = mkOutcome (Normal tt) st [prompt])
  /\ (press w = Some 1%nat ->
      final (run (deleteExpense id) w st) = final (run (deleteExpenseAPI id) w st)
      /\ events (run (deleteExpense id) w st)
         = prompt :: events (run (deleteExpenseAPI id) w st)).
Proof.
  intros prompt. rewrite run_deleteExpense. split.
  - intros Hpress. destruct (press w) as [[|[|n]]|]; try reflexivity.
    contradiction.
  - intros ->. split; reflexivity.
Qed.

Lemma deleteExpense_prompt_witness :
  let st := Scenario.screen (js "All") [] [] in
  let cancel := mkWorld (server Scenario.up) (clock Scenario.up) (Some 0%nat) in
  final (run (deleteExpense (IdNumber (of_Z 1 0))) cancel st) = st
  /\ expenses (final (run (deleteExpense (IdNumber (of_Z 1 0))) Scenario.up st))
     = [Scenario.power].
Proof.
  intros st cancel. split.
  - destruct (deleteExpense_prompt cancel st (IdNumber (of_Z 1 0))) as (Hno & _).
    rewrite Hno; [reflexivity | discriminate].
  - destruct (deleteExpense_prompt Scenario.up st (IdNumber (of_Z 1 0)))
      as (_ & Hyes).
    destruct Hyes as (Hfinal & _); [reflexivity|].
    rewrite Hfinal. vm_compute. reflexivity.
Defined.

Lemma operation_completes_witness :
  let st := Scenario.screen (js "All") (js "") (js "Coffee") in
  final (run (handler (Submit st)) Scenario.up st) = st
  /\ loading (final (run (handler Load) Scenario.offline st)) = false.
Proof.
  intros st. split.
  - apply (operation_completes (Submit st) Scenario.up st).
    repeat constructor.
  - apply (operation_completes Load Scenario.offline st).
    apply Exists_cons_hd. reflexivity.
Defined.

(** ** How deletes and submits compose *)

Lemma strict_equal_sym (a b : ExpenseId) : strict_equal a b = strict_equal b a.
Proof.
  apply eq_true_iff_eq.
  destruct a as [x|s], b as [y|t]; simpl; try tauto.
  - rewrite !number_strict_equal_comparand. split; intros (k & ? & ?); eauto.
  - rewrite !bool_decide_eq_true. split; congruence.
Qed.

(** X9. Deletes commute and repeat harmlessly: deleting [a] then [b]
    leaves the list that deleting [b] then [a] leaves, deleting [a] a
    second time changes nothing, and deleting an id no record has changes
    nothing (the request is sent all the same). *)
Theorem deleteExpenseAPI_composes (w : World) (st : State) (a b : ExpenseId) :
  call_failed (server w (DELETE_expense a)) = false ->
  call_failed (server w (DELETE_expense b)) = false ->
  let delete id s := final (run (deleteExpenseAPI id) w s) in
  expenses (delete b (delete a st)) = expenses (delete a (delete b st))
  /\ expenses (delete a (delete a st)) = expenses (delete a st)
  /\ (Forall (fun expense => strict_equal (Expense.id expense) a = false) (expenses st) ->
      expenses (delete a st) = expenses st
      /\ Requested (DELETE_expense a) ∈ events (run (deleteExpenseAPI a) w st)).
Proof.
  intros Ha Hb delete. unfold delete.
  rewrite !deleteExpenseAPI_deleted by assumption.
  split; [|split].
  - rewrite !list_filter_filter. apply list_filter_iff. intros expense. tauto.
  - apply list_filter_filter_r. auto.
  - intros Habsent. split.
    + apply filter_all. eapply Forall_impl; [exact Habsent|].
      intros expense. apply strict_not_equal_true.
    + rewrite run_deleteExpenseAPI.
      destruct (server w (DELETE_expense a)) as [response|message];
        [destruct (ok _)|]; apply list_elem_of_here.
Qed.

Lemma deleteExpenseAPI_composes_witness :
  let st := Scenario.crowded in
  let delete id s := final (run (deleteExpenseAPI id) Scenario.up s) in
  expenses (delete (IdNumber (of_Z 2 0)) (delete (IdNumber (of_Z 1 0)) st)) = []
  /\ expenses (delete (IdNumber (of_Z 7 0)) st) = expenses st.
Proof.
  intros st delete.
  pose proof (deleteExpenseAPI_composes Scenario.up st
                (IdNumber (of_Z 1 0)) (IdNumber (of_Z 2 0))) as H12.
  pose proof (deleteExpenseAPI_composes Scenario.up st
                (IdNumber (of_Z 7 0)) (IdNumber (of_Z 7 0))) as H7.
  evaluate H12. evaluate H7. cbv zeta in H12, H7. subst delete. cbv beta. split.
  - destruct H12 as (Hcommute & _). rewrite Hcommute. vm_compute. reflexivity.
  - destruct H7 as (_ & _ & Habsent). apply Habsent.
    repeat constructor.
Defined.

(** X10. Deleting the record a submit has just added gives back the
    list as it was before the submit, when the id the service assigned is
    one that equals itself and that no earlier record has. *)
Theorem addExpense_then_delete
    (self : State) (w w' : World) (st : State)
    (response : Response Expense.t) (savedExpense : Expense.t) :
  amount self <> [] -> description self <> [] ->
  isNaN (parseFloat (amount self)) = false ->
  server w (create_request self (clock w)) = Fulfilled response ->
  ok response = true ->
  body response = Json savedExpense ->
  call_failed (server w' (DELETE_expense (Expense.id savedExpense))) = false ->
  strict_equal (Expense.id savedExpense) (Expense.id savedExpense) = true ->
  Forall (fun expense =>
            strict_equal (Expense.id expense) (Expense.id savedExpense) = false)
         (expenses st) ->
  expenses (final (run (deleteExpenseAPI (Expense.id savedExpense)) w'
                       (final (run (addExpense self) w st))))
  = expenses st.
Proof.
  intros Ha Hd Hnum Hreply Hok Hbody Hdeleted Hself Hfresh.
  rewrite deleteExpenseAPI_deleted by assumption.
  rewrite (run_addExpense_created self w st response savedExpense) by assumption.
  cbn [final expenses].
  rewrite filter_cons_False by (rewrite strict_not_equal_true; congruence).
  apply filter_all. eapply Forall_impl; [exact Hfresh|].
  intros expense. apply strict_not_equal_true.
Qed.

Lemma addExpense_then_delete_witness :
  let self := Scenario.screen (js "All") (js "20") (js "Coffee") in
  expenses (final (run (deleteExpenseAPI (IdNumber (of_Z 3 0))) Scenario.up
                       (final (run (addExpense self) Scenario.up self))))
  = [Scenario.lunch; Scenario.power].
Proof.
  intros self.
  pose proof (addExpense_then_delete self Scenario.up Scenario.up self
                (mkResponse 201 (Json Scenario.coffee)) Scenario.coffee) as H.
  evaluate H. apply H. repeat constructor.
Defined.

(** *** Unique ids *)

Lemma unique_ids_cons (x : Expense.t) (l : list Expense.t) :
  unique_ids (x :: l)
  <-> Forall (fun y => strict_equal (Expense.id x) (Expense.id y) = false) l
      /\ unique_ids l.
Proof.
  split.
  - intros Huniq. split.
    + apply Forall_lookup. intros j y Hj.
      destruct (strict_equal (Expense.id x) (Expense.id y)) eqn:Hxy; [|reflexivity].
      specialize (Huniq 0%nat (S j) x y eq_refl Hj Hxy). discriminate.
    + intros i j a b Hi Hj Hab.
      specialize (Huniq (S i) (S j) a b Hi Hj Hab). lia.
  - intros [Hfresh Huniq] i j a b Hi Hj Hab.
    rewrite Forall_lookup in Hfresh.
    destruct i as [|i], j as [|j]; simpl in Hi, Hj.
    + reflexivity.
    + injection Hi as <-. rewrite (Hfresh j b Hj) in Hab. discriminate.
    + injection Hj as <-. rewrite strict_equal_sym, (Hfresh i a Hi) in Hab.
      discriminate.
    + f_equal. eauto.
Qed.

Lemma unique_ids_filter (P : Expense.t -> Prop) `{!forall x, Decision (P x)}
    (l : list Expense.t) :
  unique_ids l -> unique_ids (filter P l).
Proof.
  induction l as [|x l IH]; [auto|].
  rewrite unique_ids_cons. intros [Hfresh Huniq].
  destruct (decide (P x)).
  - rewrite filter_cons_True by assumption. apply unique_ids_cons. split; [|auto].
    apply Forall_forall. intros y Hy. apply list_elem_of_filter in Hy as [_ Hy].
    rewrite Forall_forall in Hfresh. auto.
  - rewrite filter_cons_False by assumption. auto.
Qed.

(** X11. The list keeps unique ids through a delete, through any failed
    operation, and through a submit whose new record has an id no record
    of the list has. *)
Theorem unique_ids_kept (w : World) (st : State) :
  unique_ids (expenses st) ->
  (forall id, unique_ids (expenses (final (run (deleteExpense id) w st))))
  /\ (forall op,
        (forall r, Requested r ∈ events (run (handler op) w st) ->
                   call_failed (server w r) = true) ->
        unique_ids (expenses (final (run (handler op) w st))))
  /\ (forall self response savedExpense,
        amount self <> [] -> description self <> [] ->
        isNaN (parseFloat (amount self)) = false ->
        server w (create_request self (clock w)) = Fulfilled response ->
        ok response = true ->
        body response = Json savedExpense ->
        Forall (fun expense =>
                  strict_equal (Expense.id savedExpense) (Expense.id expense) = false)
               (expenses st) ->
        unique_ids (expenses (final (run (addExpense self) w st)))).
Proof.
  intros Huniq. split; [|split].
  - intros id. rewrite run_deleteExpense.
    destruct (press w) as [[|[|n]]|]; try exact Huniq.
    unfold after. cbn [final].
    destruct (call_failed (server w (DELETE_expense id))) eqn:Hcall.
    + now rewrite deleteExpenseAPI_failed.
    + rewrite deleteExpenseAPI_deleted by assumption.
      now apply unique_ids_filter.
  - intros op Hfailed.
    destruct (operation_outcome op w st) as [Hsame|(r & Hin & Hr)].
    + destruct Hsame as (-> & _). exact Huniq.
    + specialize (Hfailed r Hin). congruence.
  - intros self response savedExpense Ha Hd Hnum Hreply Hok Hbody Hfresh.
    rewrite (run_addExpense_created self w st response savedExpense) by assumption.
    cbn [final expenses]. apply unique_ids_cons. now split.
Qed.

Lemma unique_ids_kept_witness :
  let st := Scenario.screen (js "All") (js "20") (js "Coffee") in
  unique_ids (expenses (final (run (deleteExpense (IdNumber (of_Z 1 0))) Scenario.up st)))
  /\ unique_ids (expenses (final (run (addExpense st) Scenario.up st))).
Proof.
  intros st.
  destruct (unique_ids_kept Scenario.up st unique_ids_scenario) as (Hdel & _ & Hadd).
  split; [apply Hdel|].
  pose proof (Hadd st (mkResponse 201 (Json Scenario.coffee)) Scenario.coffee) as H.
  evaluate H. apply H. repeat constructor.
Defined.

(** ** The view after an operation *)

(** X12. After a successful submit the filter is as it was, so the new
    record heads the view only under "All" or under the filter of its own
    category (the category of the record the service returned); under any
    other filter the view does not change and the new record is not
    shown. *)
Theorem addExpense_view
    (self : State) (w : World) (st : State)
    (response : Response Expense.t) (savedExpense : Expense.t) :
  amount self <> [] -> description self <> [] ->
  isNaN (parseFloat (amount self)) = false ->
  server w (create_request self (clock w)) = Fulfilled response ->
  ok response = true ->
  body response = Json savedExpense ->
  let st' := final (run (addExpense self) w st) in
  selectedFilter st' = selectedFilter st
  /\ getFilteredExpenses st'
     = if decide (selectedFilter st = js "All"
                  \/ Expense.category savedExpense = selectedFilter st)
       then savedExpense :: getFilteredExpenses st
       else getFilteredExpenses st.
Proof.
  intros Ha Hd Hnum Hreply Hok Hbody st'. unfold st'.
  rewrite (run_addExpense_created self w st response savedExpense) by assumption.
  cbn [final]. split; [reflexivity|].
  unfold getFilteredExpenses. cbn [selectedFilter expenses].
  destruct (decide (selectedFilter st = js "All")) as [Hall|Hcat].
  - rewrite decide_True by auto. reflexivity.
  - destruct (decide (Expense.category savedExpense = selectedFilter st)) as [Hc|Hc].
    + rewrite decide_True by auto. now rewrite filter_cons_True.
    + rewrite decide_False by tauto. now rewrite filter_cons_False.
Qed.

(** Under the filter "Bills" the new "Food" record is not in the view. *)
Lemma addExpense_view_witness :
  let self := Scenario.screen (js "Bills") (js "20") (js "Coffee") in
  getFilteredExpenses (final (run (addExpense self) Scenario.up self))
  = [Scenario.power].
Proof.
  intros self.
  pose proof (addExpense_view self Scenario.up self
                (mkResponse 201 (Json Scenario.coffee)) Scenario.coffee) as H.
  evaluate H. destruct H as (_ & ->). vm_compute. reflexivity.
Defined.

(** X13. A successful delete shows in the view as it does in the list:
    the view afterwards is the view before without the records of that
    id, under whatever filter. *)
Theorem deleteExpenseAPI_view (w : World) (st : State) (id : ExpenseId) :
  call_failed (server w (DELETE_expense id)) = false ->
  getFilteredExpenses (final (run (deleteExpenseAPI id) w st))
  = filter (fun expense => strict_not_equal (Expense.id expense) id)
           (getFilteredExpenses st).
Proof.
  intros Hok.
  pose proof (deleteExpenseAPI_deleted w st id Hok) as Hlist.
  assert (selectedFilter (final (run (deleteExpenseAPI id) w st)) = selectedFilter st)
    as Hfilter.
  { rewrite run_deleteExpenseAPI.
    destruct (server w (DELETE_expense id)) as [response|message];
      [destruct (ok _)|]; reflexivity. }
  unfold getFilteredExpenses. rewrite Hfilter, Hlist.
  destruct (decide (selectedFilter st = js "All")); [reflexivity|].
  rewrite !list_filter_filter. apply list_filter_iff. intros expense. tauto.
Qed.

Lemma deleteExpenseAPI_view_witness :
  getFilteredExpenses
    (final (run (deleteExpenseAPI (IdNumber (of_Z 1 0))) Scenario.up
                (Scenario.screen (js "Food") [] [])))
  = [].
Proof.
  rewrite (deleteExpenseAPI_view Scenario.up (Scenario.screen (js "Food") [] [])
             (IdNumber (of_Z 1 0))); reflexivity.
Defined.

(** ** The seven category views *)

Section Partition.
Context {A K : Type} `{EqDecision K} (f : A -> K).

(** Sorting a list into one bin per key loses and repeats nothing when
    every element has one of the keys and no key is listed twice. *)
Lemma bins_permutation (keys : list K) (l : list A) :
  NoDup keys ->
  Forall (fun x => f x ∈ keys) l ->
  concat (map (fun k => filter (fun x => f x = k) l) keys) ≡ₚ l.
Proof.
  intros Hkeys. revert l.
  induction Hkeys as [|k keys Hk Hkeys IH]; intros l Hl.
  - destruct l as [|x l]; [reflexivity|].
    inversion Hl as [|? ? Hx _]; subst. inversion Hx.
  - simpl. etrans; [|apply (filter_app_complement (fun x => f x = k) l)].
    apply Permutation_app_head.
    etrans; [|apply (IH (filter (fun x => f x <> k) l))].
    + assert (map (fun k' => filter (fun x => f x = k') l) keys
              = map (fun k' => filter (fun x => f x = k')
                                      (filter (fun x => f x <> k) l)) keys)
        as ->; [|reflexivity].
      apply map_ext_in. intros k' Hk'. apply list_elem_of_In in Hk'.
      rewrite list_filter_filter. apply list_filter_iff.
      intros x. split; [|tauto]. intros Hx. split; [exact Hx|].
      intros Hxk. apply Hk. rewrite <- Hxk, Hx. exact Hk'.
    + apply Forall_forall. intros x Hx.
      apply list_elem_of_filter in Hx as [Hne Hx].
      rewrite Forall_forall in Hl. specialize (Hl x Hx).
      apply elem_of_cons in Hl as [Heq|Hin]; [contradiction | assumption].
Qed.
End Partition.

(** "All" and the seven categories are eight different strings. *)
Lemma categories_NoDup : NoDup filterButtons.
Proof. apply (bool_decide_unpack _). vm_compute. exact I. Qed.

(** X14. The seven category filters sort the list: when every record
    has one of the seven categories, the seven views put end to end are a
    rearrangement of the list, each record in exactly one of them. A
    record of any other category is in the list, and in the "All" view,
    but in none of the seven. *)
Theorem category_views_partition (self : State) :
  let view c := getFilteredExpenses (setSelectedFilter c self) in
  (Forall (fun expense => Expense.category expense ∈ categories) (expenses self) ->
   concat (map view categories) ≡ₚ expenses self)
  /\ (forall expense,
        expense ∈ expenses self ->
        Expense.category expense ∉ categories ->
        expense ∈ view (js "All")
        /\ Forall (fun c => expense ∉ view c) categories).
Proof.
  intros view.
  assert (Hview : forall c, c ∈ categories ->
             view c = filter (fun expense => Expense.category expense = c)
                             (expenses self)).
  { intros c Hc. unfold view. rewrite getFilteredExpenses_category; [reflexivity|].
    cbn [selectedFilter setSelectedFilter]. intros ->.
    pose proof categories_NoDup as Hnd. unfold filterButtons in Hnd.
    apply NoDup_cons in Hnd as [Hall _]. contradiction. }
  split.
  - intros Hclosed.
    etrans; [|apply (bins_permutation Expense.category categories (expenses self))].
    + assert (map view categories
              = map (fun c => filter (fun expense => Expense.category expense = c)
                                     (expenses self)) categories)
        as ->; [|reflexivity].
      apply map_ext_in. intros c Hc. apply Hview. now apply list_elem_of_In.
    + pose proof categories_NoDup as Hnd. unfold filterButtons in Hnd.
      now apply NoDup_cons in Hnd as [_ Hnd].
    + assumption.
  - intros expense Hin Hother. split.
    + unfold view. now rewrite getFilteredExpenses_All.
    + apply Forall_forall. intros c Hc. rewrite (Hview c Hc).
      rewrite list_elem_of_filter. intros [<- _]. contradiction.
Qed.

Lemma category_views_partition_witness :
  let self := Scenario.screen (js "Health") [] [] in
  concat (map (fun c => getFilteredExpenses (setSelectedFilter c self)) categories)
  ≡ₚ [Scenario.lunch; Scenario.power].
Proof.
  intros self. apply (category_views_partition self).
  repeat constructor; unfold categories; rewrite !elem_of_cons; vm_compute; tauto.
Defined.

(** ** The handlers in the event loop *)

Lemma advance_fetchExpenses (timestamp : jsstring) (st : State) :
  exists k,
    advance fetchExpenses timestamp st
    = mkSegment (setLoading true st) (Parked (AwaitingReply GET_expenses k))
                [Requested GET_expenses]
    /\ reply_ok GET_expenses k.
Proof.
  eexists. split; [reflexivity|].
  intros reply t st'. unfold settled, complaint, reading.
  destruct reply as [response|message]; cbn; [|reflexivity].
  destruct (ok _); cbn; [|reflexivity].
  unfold json. destruct (body _); reflexivity.
Qed.

Lemma advance_deleteExpenseAPI (id : ExpenseId) (timestamp : jsstring) (st : State) :
  exists k,
    advance (deleteExpenseAPI id) timestamp st
    = mkSegment (setLoading true st) (Parked (AwaitingReply (DELETE_expense id) k))
                [Requested (DELETE_expense id)]
    /\ reply_ok (DELETE_expense id) k.
Proof.
  eexists. split; [reflexivity|].
  intros reply t st'. unfold settled, complaint, reading, call_failed.
  destruct reply as [response|message]; cbn; [|reflexivity].
  destruct (ok _); reflexivity.
Qed.

Lemma advance_addExpense_valid (self : State) (timestamp : jsstring) (st : State) :
  amount self <> [] -> description self <> [] ->
  isNaN (parseFloat (amount self)) = false ->
  exists k,
    advance (addExpense self) timestamp st
    = mkSegment (setLoading true st)
                (Parked (AwaitingReply (create_request self timestamp) k))
                [Requested (create_request self timestamp)]
    /\ reply_ok (create_request self timestamp) k.
Proof.
  intros Ha Hd Hnum. unfold addExpense. rewrite Hnum.
  destruct (amount self) eqn:Ea; [contradiction|].
  destruct (description self) eqn:Ed; [contradiction|].
  cbn [string_truthy negb orb]. unfold create_request. rewrite Ea, Ed.
  eexists. split; [reflexivity|].
  intros reply t st'. unfold settled, complaint, reading.
  destruct reply as [response|message];
    cbn -[parseFloat trim JSON_stringify]; [|reflexivity].
  destruct (ok _); cbn -[parseFloat trim JSON_stringify]; [|reflexivity].
  unfold json. destruct (body _); reflexivity.
Qed.

Lemma advance_addExpense_invalid (self : State) (timestamp : jsstring) (st : State) :
  amount self = [] \/ description self = []
  \/ isNaN (parseFloat (amount self)) = true ->
  exists message,
    advance (addExpense self) timestamp st
    = mkSegment st (Finished (Normal tt)) [Alerted (js "Error") message []].
Proof.
  intros Hinvalid. unfold addExpense.
  destruct (amount self) as [|c a] eqn:Ea; [now eexists|].
  destruct (description self) as [|c' d'] eqn:Ed; [now eexists|].
  destruct Hinvalid as [?|[?|Hnan]]; try discriminate.
  rewrite Hnan. now eexists.
Qed.

Lemma advance_deleteExpense (id : ExpenseId) (timestamp : jsstring) (st : State) :
  exists k,
    advance (deleteExpense id) timestamp st
    = mkSegment st
        (Parked (AwaitingPress (js "Delete Expense")
                   (js "Are you sure you want to delete this expense?")
                   [js "Cancel"; js "Delete"] k))
        [Alerted (js "Delete Expense")
                 (js "Are you sure you want to delete this expense?")
                 [js "Cancel"; js "Delete"]]
    /\ parked_ok (AwaitingPress (js "Delete Expense")
                    (js "Are you sure you want to delete this expense?")
                    [js "Cancel"; js "Delete"] k).
Proof.
  eexists. split; [reflexivity|].
  intros pressed t st'.
  destruct pressed as [[|[|n]]|]; try (left; reflexivity).
  right. destruct (advance_deleteExpenseAPI id t st') as (k' & Hadv & Hok).
  exists id, k'. now split.
Qed.

(** *** What a reply does to the state *)

Lemma settled_loading (r : Request) (reply : Settled (Reply r)) (st : State) :
  loading (settled r reply st) = false.
Proof. destruct r; reflexivity. Qed.

Lemma settled_failed (r : Request) (reply : Settled (Reply r)) (st : State) :
  call_failed reply = true ->
  untouched st (settled r reply st)
  /\ exists message, complaint r reply = [Alerted (js "Error") message []].
Proof.
  intros Hfail.
  assert (forall T fixed (reply : Settled T),
             call_failed reply = true -> exists message, reading fixed reply = NotJson message)
    as Hreading.
  { intros T fixed [response|message] H; simpl in *; [|eauto].
    apply negb_true_iff in H. rewrite H. eauto. }
  destruct r; cbn [settled complaint Reply] in *.
  - destruct (Hreading _ (js "Failed to fetch expenses") reply Hfail) as (m & ->).
    split; [repeat split | eauto].
  - destruct (Hreading _ (js "Failed to add expense") reply Hfail) as (m & ->).
    split; [repeat split | eauto].
  - rewrite Hfail.
    destruct (Hreading _ (js "Failed to delete expense") reply Hfail) as (m & ->).
    split; [repeat split | eauto].
Qed.

Lemma settled_expenses (r : Request) (reply : Settled (Reply r)) (st : State) :
  call_failed reply = true -> expenses (settled r reply st) = expenses st.
Proof. intros Hfail. now destruct (settled_failed r reply st Hfail) as ((-> & _) & _). Qed.

Lemma settled_good (r : Request) (reply : Settled (Reply r)) (st : State) :
  good_state st -> good_state (settled r reply st).
Proof.
  intros [Hcat Hfilter]. destruct r; cbn [settled].
  - destruct (reading _ reply); now split.
  - destruct (reading _ reply); split; try assumption.
    unfold categories. apply list_elem_of_here.
  - destruct (call_failed reply); now split.
Qed.

Lemma complaint_quiet (r : Request) (reply : Settled (Reply r)) :
  Forall (fun e => is_request e = false) (complaint r reply).
Proof.
  destruct r; cbn [complaint].
  - destruct (reading _ reply); repeat constructor.
  - destruct (reading _ reply); repeat constructor.
  - destruct (call_failed reply); [|constructor].
    destruct (reading _ reply); repeat constructor.
Qed.

Lemma quiet_good (events : list Event) :
  Forall (fun e => is_request e = false) events -> Forall good_event events.
Proof.
  intros Hquiet. eapply Forall_impl; [exact Hquiet|].
  intros [r|title message buttons]; simpl; [discriminate | trivial].
Qed.

Lemma stringify_number_cases (x : number) :
  stringify_number x = JNull
  \/ exists y, stringify_number x = JNumber y /\ isFinite y = true.
Proof. destruct x; simpl; eauto. Qed.

Lemma create_request_good (self : State) (timestamp : jsstring) :
  category self ∈ categories ->
  good_event (Requested (create_request self timestamp)).
Proof.
  intros Hcat. rewrite create_request_body. simpl.
  eexists _, _, _, _. split; [reflexivity|].
  split; [apply stringify_number_cases|]. split; [apply trim_tidy | assumption].
Qed.

(** *** One turn of the loop *)

(** Answering the request parked at [n]: the handler that waited does
    to the state as it is now what [settled] says, alerts what
    [complaint] says, and is gone. *)
Lemma step_settle (timestamp : jsstring) (sys : System) (n : nat)
    (reply : forall r, Settled (Reply r)) (r : Request) k :
  Forall parked_ok (parked sys) ->
  parked sys !! n = Some (AwaitingReply r k) ->
  step timestamp (Settle n reply) sys
  = Some (mkSystem (settled r (reply r) (store sys)) (delete n (parked sys)),
          complaint r (reply r)).
Proof.
  intros Hparked Hn.
  pose proof (Forall_lookup_1 _ _ _ _ Hparked Hn) as Hok. simpl in Hok.
  unfold step, launch. rewrite Hn. now rewrite Hok.
Qed.

Lemma step_invariant (timestamp : jsstring) (i : Input) (sys sys' : System)
    (events : list Event) :
  invariant sys ->
  step timestamp i sys = Some (sys', events) ->
  invariant sys' /\ Forall good_event events.
Proof.
  intros [[Hcat Hfilter] Hparked] Hstep.
  destruct i as [c| | |text|text|cat| |row|n reply|n pressed];
    cbv beta iota zeta delta [step] in Hstep.
  - destruct (decide (c ∈ filterButtons)); [|discriminate].
    injection Hstep as <- <-. repeat split; auto.
  - injection Hstep as <- <-. repeat split; auto.
  - destruct (showAddModal (store sys)); [|discriminate].
    injection Hstep as <- <-. repeat split; auto.
  - destruct (showAddModal (store sys)); [|discriminate].
    injection Hstep as <- <-. repeat split; auto.
  - destruct (showAddModal (store sys)); [|discriminate].
    injection Hstep as <- <-. repeat split; auto.
  - destruct (showAddModal (store sys)); [|discriminate].
    destruct (bool_decide (cat ∈ categories)) eqn:Hin; [|discriminate].
    apply bool_decide_eq_true in Hin.
    injection Hstep as <- <-. repeat split; auto.
  - destruct (showAddModal (store sys)); [|discriminate].
    unfold launch in Hstep.
    destruct (decide (amount (store sys) = [])) as [Ha|Ha];
      [|destruct (decide (description (store sys) = [])) as [Hd|Hd];
        [|destruct (isNaN (parseFloat (amount (store sys)))) eqn:Hnum]].
    1-3: destruct (advance_addExpense_invalid (store sys) timestamp (store sys))
           as (message & Heq); [tauto|];
         rewrite Heq in Hstep; injection Hstep as <- <-;
         repeat split; auto; repeat constructor.
    destruct (advance_addExpense_valid (store sys) timestamp (store sys) Ha Hd Hnum)
      as (k & Heq & Hk).
    rewrite Heq in Hstep. injection Hstep as <- <-.
    repeat split; auto.
    + apply Forall_app. split; [assumption|]. constructor; [exact Hk | constructor].
    + repeat constructor. now apply create_request_good.
  - destruct (loading (store sys)); [discriminate|].
    destruct (getFilteredExpenses (store sys) !! row) as [item|]; [|discriminate].
    unfold launch in Hstep.
    destruct (advance_deleteExpense (Expense.id item) timestamp (store sys))
      as (k & Heq & Hk).
    rewrite Heq in Hstep. injection Hstep as <- <-.
    repeat split; auto.
    + apply Forall_app. split; [assumption|]. constructor; [exact Hk | constructor].
    + repeat constructor.
  - destruct (parked sys !! n) as [[r k|title message buttons k]|] eqn:Hn;
      try discriminate.
    pose proof (Forall_lookup_1 _ _ _ _ Hparked Hn) as Hok. simpl in Hok.
    unfold launch in Hstep. cbn [store parked] in Hstep.
    rewrite Hok in Hstep. injection Hstep as <- <-.
    split; [split|].
    + now apply settled_good.
    + now apply Forall_delete.
    + apply quiet_good, complaint_quiet.
  - destruct (parked sys !! n) as [[r k|title message buttons k]|] eqn:Hn;
      try discriminate.
    destruct (match pressed with
              | Some b => (b <? length buttons)%nat
              | None => true
              end); [|discriminate].
    pose proof (Forall_lookup_1 _ _ _ _ Hparked Hn) as Hok. simpl in Hok.
    unfold launch in Hstep. cbn [store parked] in Hstep.
    destruct (Hok pressed timestamp (store sys)) as [Hend|(id & k' & Hgo & Hk')].
    + rewrite Hend in Hstep. injection Hstep as <- <-.
      repeat split; auto. now apply Forall_delete.
    + rewrite Hgo in Hstep. injection Hstep as <- <-.
      repeat split; auto.
      * apply Forall_app. split; [now apply Forall_delete|].
        constructor; [exact Hk' | constructor].
      * repeat constructor.
Qed.

Lemma mount_invariant (timestamp : jsstring) :
  invariant (mount timestamp).1 /\ Forall good_event (mount timestamp).2.
Proof.
  unfold mount, launch.
  destruct (advance_fetchExpenses timestamp initial) as (k & Heq & Hk).
  cbn [store parked] in *. rewrite Heq. cbn.
  split; [split|].
  - split; [apply list_elem_of_here|apply list_elem_of_here].
  - constructor; [exact Hk | constructor].
  - repeat constructor.
Qed.

Lemma reachable_invariant (sys : System) (trace : list Event) :
  reachable sys trace -> invariant sys /\ Forall good_event trace.
Proof.
  induction 1 as [timestamp|sys trace timestamp i sys' events _ [Hinv Htrace] Hstep].
  - apply mount_invariant.
  - destruct (step_invariant timestamp i sys sys' events Hinv Hstep) as [Hinv' Hev].
    split; [assumption|]. apply Forall_app. now split.
Qed.

Lemma play_reachable (script : list (jsstring * Input))
    (sys : System) (trace : list Event) (sys' : System) (trace' : list Event) :
  reachable sys trace ->
  play script sys trace = Some (sys', trace') ->
  reachable sys' trace'.
Proof.
  revert sys trace. induction script as [|[timestamp i] script IH];
    intros sys trace Hreach Hplay; simpl in Hplay.
  - now injection Hplay as <- <-.
  - destruct (step timestamp i sys) as [[sys1 events]|] eqn:Hstep; [|discriminate].
    eapply IH; [|exact Hplay]. eapply reachable_step; eassumption.
Qed.

(** What each input does to the state, in a system that keeps the
    invariant. *)
Lemma step_store (timestamp : jsstring) (i : Input) (sys sys' : System)
    (events : list Event) :
  invariant sys ->
  step timestamp i sys = Some (sys', events) ->
  match i with
  | PressFilter c => store sys' = setSelectedFilter c (store sys)
  | PressAdd => store sys' = setShowAddModal true (store sys)
  | CloseModal => store sys' = setShowAddModal false (store sys)
  | ChangeAmount text => store sys' = setAmount text (store sys)
  | ChangeDescription text => store sys' = setDescription text (store sys)
  | PressCategory cat => store sys' = setCategory cat (store sys)
  | PressSave | PressDelete _ | PressButton _ _ =>
      store sys' = store sys \/ store sys' = setLoading true (store sys)
  | Settle n reply =>
      exists r k, parked sys !! n = Some (AwaitingReply r k)
                  /\ store sys' = settled r (reply r) (store sys)
                  /\ parked sys' = delete n (parked sys)
                  /\ events = complaint r (reply r)
  end.
Proof.
  intros [_ Hparked] Hstep.
  destruct i as [c| | |text|text|cat| |row|n reply|n pressed];
    cbv beta iota zeta delta [step] in Hstep.
  - destruct (decide (c ∈ filterButtons)); [|discriminate]. now injection Hstep as <- <-.
  - now injection Hstep as <- <-.
  - destruct (showAddModal (store sys)); [|discriminate]. now injection Hstep as <- <-.
  - destruct (showAddModal (store sys)); [|discriminate]. now injection Hstep as <- <-.
  - destruct (showAddModal (store sys)); [|discriminate]. now injection Hstep as <- <-.
  - destruct (showAddModal (store sys) && bool_decide (cat ∈ categories));
      [|discriminate]. now injection Hstep as <- <-.
  - destruct (showAddModal (store sys)); [|discriminate].
    unfold launch in Hstep.
    destruct (decide (amount (store sys) = [])) as [Ha|Ha];
      [|destruct (decide (description (store sys) = [])) as [Hd|Hd];
        [|destruct (isNaN (parseFloat (amount (store sys)))) eqn:Hnum]].
    1-3: destruct (advance_addExpense_invalid (store sys) timestamp (store sys))
           as (message & Heq); [tauto|];
         rewrite Heq in Hstep; injection Hstep as <- <-; now left.
    destruct (advance_addExpense_valid (store sys) timestamp (store sys) Ha Hd Hnum)
      as (k & Heq & _).
    rewrite Heq in Hstep. injection Hstep as <- <-. now right.
  - destruct (loading (store sys)); [discriminate|].
    destruct (getFilteredExpenses (store sys) !! row) as [item|]; [|discriminate].
    unfold launch in Hstep.
    destruct (advance_deleteExpense (Expense.id item) timestamp (store sys))
      as (k & Heq & _).
    rewrite Heq in Hstep. injection Hstep as <- <-. now left.
  - destruct (parked sys !! n) as [[r k|title message buttons k]|] eqn:Hn;
      try discriminate.
    pose proof (step_settle timestamp sys n reply r k Hparked Hn) as Hsettle.
    cbv beta iota zeta delta [step] in Hsettle. rewrite Hn in Hsettle.
    rewrite Hsettle in Hstep. injection Hstep as <- <-. now exists r, k.
  - destruct (parked sys !! n) as [[r k|title message buttons k]|] eqn:Hn;
      try discriminate.
    destruct (match pressed with
              | Some b => (b <? length buttons)%nat
              | None => true
              end); [|discriminate].
    pose proof (Forall_lookup_1 _ _ _ _ Hparked Hn) as Hok. simpl in Hok.
    unfold launch in Hstep. cbn [store parked] in Hstep.
    destruct (Hok pressed timestamp (store sys)) as [Hend|(id & k' & Hgo & _)].
    + rewrite Hend in Hstep. injection Hstep as <- <-. now left.
    + rewrite Hgo in Hstep. injection Hstep as <- <-. now right.
Qed.

(** ** The running screen *)

(** X15. Whatever the user and the service do, in whatever order: the
    pending category is always one of the seven and the filter one of the
    eight that have a button, and every create request ever sent has the
    four members, with a category of the seven, a description without
    white space at its ends, and an amount that is a finite number or
    null. *)
Theorem loop_keeps_categories (sys : System) (trace : list Event) :
  reachable sys trace ->
  category (store sys) ∈ categories
  /\ selectedFilter (store sys) ∈ filterButtons
  /\ forall body,
       Requested (POST_expenses body) ∈ trace ->
       exists amount description category date,
         body = JObject [ (js "amount", amount);
                          (js "description", JString description);
                          (js "category", JString category);
                          (js "date", JString date) ]
         /\ (amount = JNull \/ exists x, amount = JNumber x /\ isFinite x = true)
         /\ tidy description
         /\ category ∈ categories.
Proof.
  intros Hreach.
  destruct (reachable_invariant sys trace Hreach) as [[[Hcat Hfilter] _] Htrace].
  split; [assumption|]. split; [assumption|].
  intros body Hin. rewrite Forall_forall in Htrace. exact (Htrace _ Hin).
Qed.

(** X16. A reply acts on the state as it is when the reply arrives, not
    as it was when the request left. A created record is put in front of
    the list as it is then, and the inputs are emptied whatever was typed
    meanwhile; a delete filters the list as it is then; a load replaces
    the list as it is then, records added meanwhile included. The handler
    that waited is gone and nothing is alerted. *)
Theorem settle_success (sys : System) (trace : list Event)
    (timestamp : jsstring) (n : nat) (reply : forall r, Settled (Reply r)) :
  reachable sys trace ->
  let st := store sys in
  let result st' :=
    step timestamp (Settle n reply) sys
    = Some (mkSystem st' (delete n (parked sys)), []) in
  (forall k response data,
     parked sys !! n = Some (AwaitingReply GET_expenses k) ->
     reply GET_expenses = Fulfilled response ->
     ok response = true -> body response = Json data ->
     result {| expenses := data; amount := amount st; description := description st;
               category := category st; showAddModal := showAddModal st;
               selectedFilter := selectedFilter st; loading := false |})
  /\ (forall sent k response savedExpense,
        parked sys !! n = Some (AwaitingReply (POST_expenses sent) k) ->
        reply (POST_expenses sent) = Fulfilled response ->
        ok response = true -> body response = Json savedExpense ->
        result {| expenses := savedExpense :: expenses st; amount := [];
                  description := []; category := js "Food"; showAddModal := false;
                  selectedFilter := selectedFilter st; loading := false |})
  /\ (forall id k response,
        parked sys !! n = Some (AwaitingReply (DELETE_expense id) k) ->
        reply (DELETE_expense id) = Fulfilled response ->
        ok response = true ->
        result {| expenses :=
                    filter (fun expense => strict_not_equal (Expense.id expense) id)
                           (expenses st);
                  amount := amount st; description := description st;
                  category := category st; showAddModal := showAddModal st;
                  selectedFilter := selectedFilter st; loading := false |}).
Proof.
  intros Hreach st result.
  destruct (reachable_invariant sys trace Hreach) as [[_ Hparked] _].
  unfold result. split; [|split].
  - intros k response data Hn Hreply Hok Hbody.
    rewrite (step_settle timestamp sys n reply _ k Hparked Hn).
    cbn [settled complaint reading Reply] in *.
    rewrite Hreply. cbn [reading]. now rewrite Hok, Hbody.
  - intros sent k response savedExpense Hn Hreply Hok Hbody.
    rewrite (step_settle timestamp sys n reply _ k Hparked Hn).
    cbn [settled complaint reading Reply] in *.
    rewrite Hreply. cbn [reading]. now rewrite Hok, Hbody.
  - intros id k response Hn Hreply Hok.
    rewrite (step_settle timestamp sys n reply _ k Hparked Hn).
    cbn [settled complaint reading call_failed Reply] in *.
    rewrite Hreply. cbn [call_failed]. now rewrite Hok.
Qed.

(** X17. A failed call changes nothing but the in-flight flag, whatever
    else went on while it was in flight: when the request parked at [n]
    is answered by a rejection or a status outside 2xx, the list, the
    inputs, the dialog flag and the filter are as they were just before
    the answer, one alert titled "Error" is shown, no request is sent
    again, and the handler is gone. *)
Theorem settle_failure (sys : System) (trace : list Event)
    (timestamp : jsstring) (n : nat) (reply : forall r, Settled (Reply r))
    (r : Request) k :
  reachable sys trace ->
  parked sys !! n = Some (AwaitingReply r k) ->
  call_failed (reply r) = true ->
  exists sys' message,
    step timestamp (Settle n reply) sys
    = Some (sys', [Alerted (js "Error") message []])
    /\ untouched (store sys) (store sys')
    /\ loading (store sys') = false
    /\ parked sys' = delete n (parked sys).
Proof.
  intros Hreach Hn Hfail.
  destruct (reachable_invariant sys trace Hreach) as [[_ Hparked] _].
  destruct (settled_failed r (reply r) (store sys) Hfail) as (Hsame & message & Hmsg).
  eexists _, message. rewrite (step_settle timestamp sys n reply r k Hparked Hn).
  rewrite Hmsg. split; [reflexivity|]. cbn [store parked].
  split; [assumption|]. split; [apply settled_loading | reflexivity].
Qed.

(** X18. The list changes only when a request is answered with a 2xx
    status: no touch on the screen and no failed call changes it. *)
Theorem list_changes_on_success_only (sys : System) (trace : list Event)
    (timestamp : jsstring) (i : Input) (sys' : System) (events : list Event) :
  reachable sys trace ->
  step timestamp i sys = Some (sys', events) ->
  expenses (store sys') = expenses (store sys)
  \/ exists n reply r k,
       i = Settle n reply
       /\ parked sys !! n = Some (AwaitingReply r k)
       /\ call_failed (reply r) = false.
Proof.
  intros Hreach Hstep.
  destruct (reachable_invariant sys trace Hreach) as [Hinv _].
  pose proof (step_store timestamp i sys sys' events Hinv Hstep) as Hstore.
  destruct i as [c| | |text|text|cat| |row|n reply|n pressed];
    try (left; now rewrite Hstore);
    try (left; destruct Hstore as [-> | ->]; reflexivity).
  destruct Hstore as (r & k & Hn & -> & _).
  destruct (call_failed (reply r)) eqn:Hcall.
  - left. now apply settled_expenses.
  - right. now exists n, reply, r, k.
Qed.

(** X19. The in-flight flag is cleared by every answer, and an answer
    sends nothing; so the flag does not count requests: after a load and
    a submit have both left and one of them is answered, the other is
    still in flight with the flag down. *)
Theorem loading_is_not_a_count :
  (forall sys trace timestamp n reply sys' events,
     reachable sys trace ->
     step timestamp (Settle n reply) sys = Some (sys', events) ->
     loading (store sys') = false
     /\ Forall (fun e => is_request e = false) events
     /\ parked sys' = delete n (parked sys))
  /\ exists sys trace r k,
       reachable sys trace
       /\ parked sys = [AwaitingReply r k]
       /\ loading (store sys) = false.
Proof.
  split.
  - intros sys trace timestamp n reply sys' events Hreach Hstep.
    destruct (reachable_invariant sys trace Hreach) as [Hinv _].
    destruct (step_store timestamp (Settle n reply) sys sys' events Hinv Hstep)
      as (r & k & _ & -> & -> & ->).
    split; [apply settled_loading|]. split; [apply complaint_quiet | reflexivity].
  - pose (t := clock Scenario.up).
    eexists _, _, _, _. split; [|split].
    + eapply (play_reachable
                [ (t, PressAdd); (t, ChangeAmount (js "20"));
                  (t, ChangeDescription (js "Coffee")); (t, PressSave);
                  (t, Settle 0 (server Scenario.up)) ]);
        [apply (reachable_mount t)|].
      vm_compute. reflexivity.
    + reflexivity.
    + reflexivity.
Qed.

Lemma loop_keeps_categories_witness :
  let t := clock Scenario.up in
  category (store (mount t).1) ∈ categories
  /\ selectedFilter (store (mount t).1) ∈ filterButtons.
Proof.
  intros t.
  destruct (loop_keeps_categories (mount t).1 (mount t).2 (reachable_mount t))
    as (Hcat & Hfilter & _).
  now split.
Defined.

(** The load of the first render, answered with one record. *)
Lemma settle_success_witness :
  let t := clock Scenario.up in
  step t (Settle 0%nat (server Scenario.up)) (mount t).1
  = Some (mkSystem
            {| expenses := [Scenario.coffee]; amount := []; description := [];
               category := js "Food"; showAddModal := false;
               selectedFilter := js "All"; loading := false |}
            [],
          []).
Proof.
  intros t.
  destruct (settle_success (mount t).1 (mount t).2 t 0%nat (server Scenario.up)
              (reachable_mount t)) as (Hload & _).
  eapply Hload; reflexivity.
Defined.

Lemma settle_failure_witness :
  let t := clock Scenario.up in
  exists sys' message,
    step t (Settle 0%nat (server Scenario.offline)) (mount t).1
    = Some (sys', [Alerted (js "Error") message []])
    /\ expenses (store sys') = []
    /\ loading (store sys') = false.
Proof.
  intros t.
  edestruct (settle_failure (mount t).1 (mount t).2 t 0%nat (server Scenario.offline))
    as (sys' & message & Hstep & (Hlist & _) & Hflag & _).
  - apply reachable_mount.
  - reflexivity.
  - reflexivity.
  - exists sys', message. repeat split; assumption.
Defined.

Lemma list_changes_on_success_only_witness :
  let t := clock Scenario.up in
  exists sys' events,
    step t PressAdd (mount t).1 = Some (sys', events)
    /\ expenses (store sys') = [].
Proof.
  intros t.
  destruct (step t PressAdd (mount t).1) as [[sys' events]|] eqn:Hstep;
    [|discriminate].
  exists sys', events. split; [reflexivity|].
  destruct (list_changes_on_success_only (mount t).1 (mount t).2 t PressAdd
              sys' events (reachable_mount t) Hstep)
    as [Hsame|(n & reply & r & k & Hi & _)]; [exact Hsame | discriminate].
Defined.

Lemma loading_is_not_a_count_witness :
  let t := clock Scenario.up in
  exists sys' events,
    step t (Settle 0%nat (server Scenario.failing)) (mount t).1 = Some (sys', events)
    /\ loading (store sys') = false.
Proof.
  intros t.
  destruct (step t (Settle 0%nat (server Scenario.failing)) (mount t).1)
    as [[sys' events]|] eqn:Hstep; [|discriminate].
  exists sys', events. split; [reflexivity|].
  destruct loading_is_not_a_count as (Hclears & _).
  now apply (Hclears (mount t).1 (mount t).2 t 0%nat (server Scenario.failing)
               sys' events (reachable_mount t) Hstep).
Defined.

(** ** Two submits in a row *)

Lemma step_settle_at (timestamp : jsstring) (sys : System) (n : nat)
    (reply : forall r, Settled (Reply r)) (r : Request) k :
  parked sys !! n = Some (AwaitingReply r k) ->
  reply_ok r k ->
  step timestamp (Settle n reply) sys
  = Some (mkSystem (settled r (reply r) (store sys)) (delete n (parked sys)),
          complaint r (reply r)).
Proof. intros Hn Hok. unfold step, launch. rewrite Hn. now rewrite Hok. Qed.

Lemma step_PressSave_valid (timestamp : jsstring) (sys : System) :
  showAddModal (store sys) = true ->
  amount (store sys) <> [] -> description (store sys) <> [] ->
  isNaN (parseFloat (amount (store sys))) = false ->
  exists k,
    step timestamp PressSave sys
    = Some (mkSystem (setLoading true (store sys))
              (parked sys ++ [AwaitingReply (create_request (store sys) timestamp) k]),
            [Requested (create_request (store sys) timestamp)])
    /\ reply_ok (create_request (store sys) timestamp) k.
Proof.
  intros Hopen Ha Hd Hnum.
  destruct (advance_addExpense_valid (store sys) timestamp (store sys) Ha Hd Hnum)
    as (k & Heq & Hk).
  exists k. split; [|assumption].
  cbv beta iota zeta delta [step]. rewrite Hopen. unfold launch. now rewrite Heq.
Qed.

(** X20. Nothing holds a second submit back while the first is in
    flight: the dialog is still open and the inputs are still there, so
    pressing "Add Expense" twice sends the same amount, description and
    category twice; and when both requests are answered with a record,
    both records are put in the list. *)
Theorem double_submit (sys : System) (t1 t2 : jsstring) :
  showAddModal (store sys) = true ->
  amount (store sys) <> [] -> description (store sys) <> [] ->
  isNaN (parseFloat (amount (store sys))) = false ->
  let first := create_request (store sys) t1 in
  let second := create_request (store sys) t2 in
  exists sys2,
    play [(t1, PressSave); (t2, PressSave)] sys []
    = Some (sys2, [Requested first; Requested second])
    /\ length (parked sys2) = (length (parked sys) + 2)%nat
    /\ forall t3 t4 (reply1 reply2 : forall r, Settled (Reply r))
              response1 response2 saved1 saved2,
         reply1 first = Fulfilled response1 ->
         ok response1 = true -> body response1 = Json saved1 ->
         reply2 second = Fulfilled response2 ->
         ok response2 = true -> body response2 = Json saved2 ->
         exists sys4,
           play [ (t3, Settle (length (parked sys)) reply1);
                  (t4, Settle (length (parked sys)) reply2) ] sys2 []
           = Some (sys4, [])
           /\ expenses (store sys4) = saved2 :: saved1 :: expenses (store sys)
           /\ parked sys4 = parked sys.
Proof.
  intros Hopen Ha Hd Hnum first second.
  destruct (step_PressSave_valid t1 sys Hopen Ha Hd Hnum) as (k1 & Hstep1 & Hk1).
  set (sys1 := mkSystem (setLoading true (store sys))
                        (parked sys ++ [AwaitingReply first k1])) in *.
  destruct (step_PressSave_valid t2 sys1 Hopen Ha Hd Hnum) as (k2 & Hstep2 & Hk2).
  change (create_request (store sys1) t2) with second in *.
  set (sys2 := mkSystem (setLoading true (store sys1))
                        (parked sys1 ++ [AwaitingReply second k2])) in *.
  exists sys2. split; [|split].
  - cbn [play]. rewrite Hstep1. cbn [play]. fold first. fold sys1.
    rewrite Hstep2. reflexivity.
  - unfold sys2, sys1. cbn [parked]. rewrite !length_app. simpl. lia.
  - intros t3 t4 reply1 reply2 response1 response2 saved1 saved2
           Hr1 Hok1 Hb1 Hr2 Hok2 Hb2.
    set (n := length (parked sys)).
    assert (parked sys2 !! n = Some (AwaitingReply first k1)) as Hn1.
    { unfold sys2, sys1, n. cbn [parked]. rewrite <- app_assoc. cbn [app].
      now rewrite list_lookup_middle. }
    pose proof (step_settle_at t3 sys2 n reply1 first k1 Hn1 Hk1) as Hs1.
    set (sys3 := mkSystem (settled first (reply1 first) (store sys2))
                          (delete n (parked sys2))) in *.
    assert (parked sys3 = parked sys ++ [AwaitingReply second k2]) as Hparked3.
    { unfold sys3, sys2, sys1, n. cbn [parked]. rewrite <- app_assoc. cbn [app].
      now rewrite delete_middle. }
    assert (parked sys3 !! n = Some (AwaitingReply second k2)) as Hn2.
    { rewrite Hparked3. unfold n. now rewrite list_lookup_middle. }
    pose proof (step_settle_at t4 sys3 n reply2 second k2 Hn2 Hk2) as Hs2.
    eexists. cbn [play]. rewrite Hs1. cbn [play]. rewrite Hs2.
    assert (complaint first (reply1 first) = []) as ->.
    { unfold first, create_request in *. cbn [complaint Reply] in *.
      rewrite Hr1. cbn [reading]. now rewrite Hok1, Hb1. }
    assert (complaint second (reply2 second) = []) as ->.
    { unfold second, create_request in *. cbn [complaint Reply] in *.
      rewrite Hr2. cbn [reading]. now rewrite Hok2, Hb2. }
    split; [reflexivity|]. cbn [store parked]. split.
    + unfold sys3, sys2, sys1. cbn [store].
      unfold first, second, create_request in *. cbn [settled Reply] in *.
      rewrite Hr1, Hr2. cbn [reading]. rewrite Hok1, Hb1, Hok2, Hb2. reflexivity.
    + rewrite Hparked3. unfold n. now rewrite delete_middle, app_nil_r.
Qed.

Lemma double_submit_witness :
  let t := clock Scenario.up in
  let sys := mkSystem (Scenario.screen (js "All") (js "20") (js "Coffee")) [] in
  exists sys2 first second,
    play [(t, PressSave); (t, PressSave)] sys []
    = Some (sys2, [Requested first; Requested second])
    /\ first = second
    /\ length (parked sys2) = 2%nat.
Proof.
  intros t sys.
  pose proof (double_submit sys t t) as H. evaluate H.
  destruct H as (sys2 & Hplay & Hlength & _).
  exists sys2, (create_request (store sys) t), (create_request (store sys) t).
  split; [exact Hplay|]. split; [reflexivity | exact Hlength].
Defined.

(** ** The highlighted buttons *)

Lemma filter_eq_NoDup {A} `{EqDecision A} (x : A) (l : list A) :
  NoDup l -> x ∈ l -> filter (fun y => x = y) l = [x].
Proof.
  induction 1 as [|y l Hy Hl IH]; intros Hin; [inversion Hin|].
  destruct (decide (x = y)) as [<-|Hne].
  - rewrite filter_cons_True by reflexivity. f_equal.
    apply filter_none, Forall_forall. intros z Hz ->. contradiction.
  - rewrite filter_cons_False by assumption. apply IH.
    apply elem_of_cons in Hin as [?|?]; [contradiction | assumption].
Qed.

(** X21. At every moment exactly one button of the filter bar is
    highlighted, the one of the current filter, and exactly one button of
    the category picker, the one of the pending category. *)
Theorem one_active_button (sys : System) (trace : list Event) :
  reachable sys trace ->
  activeFilterButtons (store sys) = [selectedFilter (store sys)]
  /\ activeCategoryButtons (store sys) = [category (store sys)].
Proof.
  intros Hreach.
  destruct (reachable_invariant sys trace Hreach) as [[[Hcat Hfilter] _] _].
  pose proof categories_NoDup as Hnd. split.
  - now apply filter_eq_NoDup.
  - apply filter_eq_NoDup; [|assumption].
    unfold filterButtons in Hnd. now apply NoDup_cons in Hnd as [_ Hnd].
Qed.

Lemma one_active_button_witness :
  let t := clock Scenario.up in
  activeFilterButtons (store (mount t).1) = [js "All"]
  /\ activeCategoryButtons (store (mount t).1) = [js "Food"].
Proof.
  intros t. apply (one_active_button (mount t).1 (mount t).2 (reachable_mount t)).
Defined.

(** ** The loop and the single operation agree *)

(** An operation that nothing interrupts does in the loop what it does
    when run on its own: the state and the events of [run] are those of
    the handler's first stretch followed by the reply's. *)
Lemma run_in_loop (w : World) (st : State) :
  (let out := run fetchExpenses w st in
   final out = settled GET_expenses (server w GET_expenses) (setLoading true st)
   /\ events out
      = Requested GET_expenses :: complaint GET_expenses (server w GET_expenses))
  /\ (forall id,
        let out := run (deleteExpenseAPI id) w st in
        final out
        = settled (DELETE_expense id) (server w (DELETE_expense id)) (setLoading true st)
        /\ events out
           = Requested (DELETE_expense id)
             :: complaint (DELETE_expense id) (server w (DELETE_expense id)))
  /\ (forall self,
        amount self <> [] -> description self <> [] ->
        isNaN (parseFloat (amount self)) = false ->
        let r := create_request self (clock w) in
        let out := run (addExpense self) w st in
        final out = settled r (server w r) (setLoading true st)
        /\ events out = Requested r :: complaint r (server w r)).
Proof.
  split; [|split].
  - cbv zeta. rewrite run_fetchExpenses. cbn [settled complaint].
    destruct (server w GET_expenses) as [response|message]; cbn [reading];
      [|now split].
    destruct (ok _); [|now split]. destruct (body _); now split.
  - intros id. cbv zeta. rewrite run_deleteExpenseAPI. cbn [settled complaint].
    destruct (server w (DELETE_expense id)) as [response|message];
      cbn [reading call_failed]; [|now split].
    destruct (ok _); now split.
  - intros self Ha Hd Hnum r. cbv zeta.
    rewrite run_addExpense_valid by assumption. cbv zeta. fold r.
    unfold r, create_request. cbn [settled complaint].
    destruct (server w _) as [response|message]; cbn [reading]; [|now split].
    destruct (ok _); [|now split]. destruct (body _); now split.
Qed.
